(** * A shallow embedding of [ReadNCDF.cpp], the ExodusII reader.

    Entity handles, ids and on-disk integers are [Z]; NetCDF dimensions
    read with [GET_DIMB] are supplied as functions of the block sequence
    number; doubles are Rocq's primitive floats.  The mesh database is an
    association list of entities in creation order (MOAB hands out handles
    in increasing order), the C++ [std::map]s are stdpp [gmap]s. *)

From Stdlib Require Import ZArith Lia String Ascii Floats.
From stdpp Require Import base list gmap strings.

Open Scope Z_scope.

(** ** Error codes *)

Inductive ErrorCode :=
| MB_SUCCESS
| MB_FAILURE
| MB_UNSUPPORTED_OPERATION
| MB_TYPE_OUT_OF_RANGE
| MB_NOT_IMPLEMENTED
| MB_FILE_DOES_NOT_EXIST
| MB_INVALID_SIZE.

(** A computation of the reader either fails with an error code or
    yields a value. *)
Inductive result (A : Type) :=
| Ok (a : A)
| Err (e : ErrorCode).
Arguments Ok {A} a.
Arguments Err {A} e.

Global Instance result_ret : MRet result := fun A a => Ok a.
Global Instance result_bind : MBind result := fun A B k m =>
  match m with Ok a => k a | Err e => Err e end.

(** ** Element types

    The catalog enumeration [ExoIIElementType] (ExoIIUtil) lists each
    family (HEX, HEX8, ..., HEX27) contiguously, so the reader's range
    tests [EXOII_HEX <= t <= EXOII_HEX27] are tests on the family.  An
    element type is a family and a node count; [EXOII_MAX_ELEM_TYPE] is
    the sentinel after the last family. *)

Inductive exo_family :=
| FSphere | FSpring | FBar | FBeam | FTruss | FTri | FQuad | FShell
| FTetra | FPyramid | FWedge | FKnife | FHex | FHexShell.

Inductive ExoIIElementType :=
| EXOII_elem (f : exo_family) (nodes : nat)
| EXOII_MAX_ELEM_TYPE.

Definition in_family (f : exo_family) (t : ExoIIElementType) : bool :=
  match t, f with
  | EXOII_elem FSphere _, FSphere | EXOII_elem FSpring _, FSpring
  | EXOII_elem FBar _, FBar | EXOII_elem FBeam _, FBeam
  | EXOII_elem FTruss _, FTruss | EXOII_elem FTri _, FTri
  | EXOII_elem FQuad _, FQuad | EXOII_elem FShell _, FShell
  | EXOII_elem FTetra _, FTetra | EXOII_elem FPyramid _, FPyramid
  | EXOII_elem FWedge _, FWedge | EXOII_elem FKnife _, FKnife
  | EXOII_elem FHex _, FHex | EXOII_elem FHexShell _, FHexShell => true
  | _, _ => false
  end.

(** ** Block header records ([ReadBlockData]) *)

Record ReadBlockData := {
  elemType : ExoIIElementType;
  blockId : Z;
  startExoId : Z;
  numElements : Z;
  reading_in : bool;
  startMBId : Z
}.

(** ** [std::vector] iterators

    An iterator is the container it walks and a position in it.  Two
    iterators compare equal when they denote the same position of the same
    container; iterators of two distinct, simultaneously live vectors
    never compare equal (their storage is disjoint). *)

Record vec_iter := It { it_container : nat; it_pos : nat }.

Definition iter_eqb (a b : vec_iter) : bool :=
  Nat.eqb (it_container a) (it_container b) && Nat.eqb (it_pos a) (it_pos b).

Definition vec_end (c : nat) (v : list Z) : vec_iter := It c (length v).

(** [std::find(v.begin(), v.end(), x)] on the vector [c]. *)
Fixpoint find_pos (v : list Z) (x : Z) : nat :=
  match v with
  | [] => 0%nat
  | y :: v' => if Z.eqb y x then 0%nat else S (find_pos v' x)
  end.

Definition std_find (c : nat) (v : list Z) (x : Z) : vec_iter :=
  It c (find_pos v x).

(** ** [ReadNCDF::read_block_headers]

    [block_ids] is the [eb_prop1] vector (its length is
    [numberElementBlocks_loading]); [num_el_in_blk k] is the size of the
    dimension [num_el_in_blk<k>] (0 when absent, as [GET_DIMB] does).
    [new_blocks] copies [numberElementBlocks_loading] entries starting at
    [blocks_to_load]; entries past the caller's list are modelled as
    absent.  The vectors [block_ids] and [new_blocks] are containers 0
    and 1. *)

Definition block_ids_c : nat := 0%nat.
Definition new_blocks_c : nat := 1%nat.

Fixpoint read_block_headers_loop (block_ids_all : list Z) (new_blocks : list Z)
    (num_el_in_blk : nat -> Z) (iter : list Z) (block_seq_id : nat)
    (exodus_id : Z) : list ReadBlockData :=
  match iter with
  | [] => []
  | id :: rest =>
      let num_elements := num_el_in_blk block_seq_id in
      let rin := negb (iter_eqb (std_find new_blocks_c new_blocks id)
                                (vec_end block_ids_c block_ids_all)) in
      {| elemType := EXOII_MAX_ELEM_TYPE; blockId := id;
         startExoId := exodus_id; numElements := num_elements;
         reading_in := rin; startMBId := 0 |}
      :: read_block_headers_loop block_ids_all new_blocks num_el_in_blk rest
           (S block_seq_id) (exodus_id + num_elements)
  end.

Definition read_block_headers (block_ids : list Z)
    (blocks_to_load : option (list Z)) (num_blocks : Z)
    (num_el_in_blk : nat -> Z) : list ReadBlockData :=
  let numberElementBlocks_loading := length block_ids in
  let btl := match blocks_to_load with
             | None => block_ids
             | Some l => if Z.eqb num_blocks 0 then block_ids else l
             end in
  let new_blocks := take numberElementBlocks_loading btl in
  read_block_headers_loop block_ids new_blocks num_el_in_blk block_ids 1%nat 1.

(** The selection the block-header reader is meant to compute: a block is
    read iff the list is null/empty or contains its id. *)
Definition intended_selected (blocks_to_load : option (list Z))
    (num_blocks : Z) (id : Z) : bool :=
  match blocks_to_load with
  | None => true
  | Some l => Z.eqb num_blocks 0 || existsb (Z.eqb id) l
  end.

(** ** [ReadNCDF::load_file]: the subset-list check *)

Record SubsetTag := {
  tag_name : string;
  tag_values : list Z;
  num_tag_values : Z
}.

(** A [ReaderIface::SubsetList] with its (non-empty) [tag_list]. *)
Record SubsetList := {
  tag_list0 : SubsetTag;
  tag_list_rest : list SubsetTag;
  num_parts : Z
}.

Definition tag_list_length (s : SubsetList) : Z :=
  1 + Z.of_nat (length (tag_list_rest s)).

Definition MATERIAL_SET_TAG_NAME : string := "MATERIAL_SET".

(** [!strcmp(a, b)]: the two C strings are equal. *)
Definition not_strcmp (a b : string) : bool := String.eqb a b.

(** The prologue of [load_file] up to the [tdata] dispatch: the
    [blocks_to_load] pointer (None for NULL) and [num_blocks]. *)
Definition load_file_subset (subset_list : option SubsetList)
    : result (option (list Z) * Z) :=
  match subset_list with
  | None => Ok (None, 0)
  | Some s =>
      if Z.gtb (tag_list_length s) 1
         || not_strcmp (tag_name (tag_list0 s)) MATERIAL_SET_TAG_NAME
      then Err MB_UNSUPPORTED_OPERATION
      else if negb (Z.eqb (num_parts s) 0) then Err MB_UNSUPPORTED_OPERATION
      else Ok (Some (tag_values (tag_list0 s)), num_tag_values (tag_list0 s))
  end.

(** ** [ReadNCDF::read_elements]: connectivity conversion

    The on-disk entries [tmp_ptr] are 32-bit [int]s.  The loop runs from
    the last entry to the first; [(unsigned)tmp_ptr[i]] is compared with
    [nodesInLoadedBlocks.size() = numberNodes_loading + 1]; an accepted
    entry marks [nodesInLoadedBlocks] and becomes the handle
    [tmp_ptr[i] + vertexOffset].  The result is the converted row-major
    connectivity and the updated [nodesInLoadedBlocks]. *)

Definition to_unsigned32 (x : Z) : Z := x mod 2 ^ 32.

Fixpoint convert_connectivity (vertexOffset : Z) (tmp_ptr : list Z)
    (nodesInLoadedBlocks : list bool) : result (list Z * list bool) :=
  match tmp_ptr with
  | [] => Ok ([], nodesInLoadedBlocks)
  | x :: rest =>
      (* the tail is converted first: the loop iterates backwards *)
      '(conn, touched) ← convert_connectivity vertexOffset rest nodesInLoadedBlocks;
      if Z.geb (to_unsigned32 x) (Z.of_nat (length touched))
      then Err MB_FAILURE
      else Ok ((x + vertexOffset) :: conn, <[Z.to_nat x := true]> touched)
  end.

(** [nodesInLoadedBlocks.resize(numberNodes_loading+1)] and zero-fill. *)
Definition initial_touched (numberNodes_loading : Z) : list bool :=
  replicate (Z.to_nat (numberNodes_loading + 1)) false.

Definition read_elements_convert (numberNodes_loading vertexOffset : Z)
    (tmp_ptr : list Z) : result (list Z * list bool) :=
  convert_connectivity vertexOffset tmp_ptr (initial_touched numberNodes_loading).

(** ** The mesh database

    Entity types and their dimension ([CN::Dimension]).  An element is its
    type and its ordered connectivity; the database lists the elements in
    creation order with their handles and hands out the next handle on
    [create_element].  [get_adjacencies] of one vertex to a dimension
    yields the elements of that dimension whose connectivity holds the
    vertex, in creation order. *)

Inductive EntityType :=
| MBVERTEX | MBEDGE | MBTRI | MBQUAD | MBPOLYGON | MBTET | MBPYRAMID
| MBPRISM | MBKNIFE | MBHEX | MBPOLYHEDRON | MBENTITYSET | MBMAXTYPE.

Definition Dimension (t : EntityType) : Z :=
  match t with
  | MBVERTEX => 0
  | MBEDGE => 1
  | MBTRI | MBQUAD | MBPOLYGON => 2
  | MBTET | MBPYRAMID | MBPRISM | MBKNIFE | MBHEX | MBPOLYHEDRON => 3
  | MBENTITYSET | MBMAXTYPE => 4
  end.

Record element := { etype : EntityType; econn : list Z }.

Record Db := { ents : list (Z * element); next_handle : Z }.

Definition get_connectivity (db : Db) (h : Z) : option (list Z) :=
  match list_find (fun p => p.1 = h) (ents db) with
  | Some (_, (_, e)) => Some (econn e)
  | None => None
  end.

Definition get_adjacencies (db : Db) (v : Z) (to_dim : Z) : list Z :=
  map fst (filter (fun p => Dimension (etype p.2) = to_dim /\ v ∈ econn p.2)
                  (ents db)).

Definition create_element (db : Db) (t : EntityType) (conn : list Z) : Db * Z :=
  ({| ents := ents db ++ [(next_handle db, {| etype := t; econn := conn |})];
      next_handle := next_handle db + 1 |}, next_handle db).

(** ** [ReadNCDF::create_sideset_element]

    [match_conn] is rotated by [std::rotate] so that the first occurrence
    of [connectivity[0]] comes first; then positions [1..n-1] are compared
    forwards ([connectivity[j] = match_conn[j]]) and, failing that,
    backwards ([connectivity[j] = match_conn[n-j]]). *)

Definition std_rotate (l : list Z) (p : nat) : list Z := drop p l ++ take p l.

Fixpoint fwd_equal (conn match_conn : list Z) (j n : nat) (fuel : nat) : bool :=
  match fuel with
  | O => true
  | S fuel' =>
      if Nat.ltb j n then
        if Z.eqb (nth j conn 0) (nth j match_conn 0)
        then fwd_equal conn match_conn (S j) n fuel' else false
      else true
  end.

Fixpoint rev_equal (conn match_conn : list Z) (j k n : nat) (fuel : nat) : bool :=
  match fuel with
  | O => true
  | S fuel' =>
      if Nat.ltb j n then
        if Z.eqb (nth j conn 0) (nth k match_conn 0)
        then rev_equal conn match_conn (S j) (pred k) n fuel' else false
      else true
  end.

(** The test applied to one candidate: [None] for [continue]. *)
Definition candidate_matches (connectivity match_conn : list Z) : bool :=
  let n := length connectivity in
  if negb (Nat.eqb (length match_conn) n) then false
  else
    let p := find_pos match_conn (nth 0 connectivity 0) in
    if Nat.eqb p (length match_conn) then false
    else
      let rotated := std_rotate match_conn p in
      fwd_equal connectivity rotated 1 n n
      || rev_equal connectivity rotated 1 (pred n) n n.

Fixpoint scan_candidates (db : Db) (connectivity : list Z) (adj_ent : list Z)
    : option Z :=
  match adj_ent with
  | [] => None
  | h :: rest =>
      match get_connectivity db h with
      | None => scan_candidates db connectivity rest
      | Some match_conn =>
          if candidate_matches connectivity match_conn then Some h
          else scan_candidates db connectivity rest
      end
  end.

Definition create_sideset_element (db : Db) (connectivity : list Z)
    (type : EntityType) : Db * Z :=
  let adj_ent := get_adjacencies db (nth 0 connectivity 0) (Dimension type) in
  match scan_candidates db connectivity adj_ent with
  | Some h => (db, h)
  | None => create_element db type connectivity
  end.

(** The side-materializer's reuse test in the words of its description:
    same cardinality; after rotating the candidate so that its first
    occurrence of our first vertex leads, the sequences are equal or our
    sequence is the rotated candidate traversed backwards from its first
    vertex. *)
Definition spec_rotated (connectivity cand : list Z) : list Z :=
  std_rotate cand (find_pos cand (nth 0 connectivity 0)).

Definition spec_same_side (connectivity cand : list Z) : Prop :=
  length cand = length connectivity /\
  (nth 0 connectivity 0) ∈ cand /\
  (connectivity = spec_rotated connectivity cand \/
   connectivity = take 1 (spec_rotated connectivity cand)
                  ++ rev (drop 1 (spec_rotated connectivity cand))).

Global Instance spec_same_side_dec connectivity cand :
  Decision (spec_same_side connectivity cand).
Proof. unfold spec_same_side. apply _. Defined.

(** The first adjacent candidate that is the same side, in the order
    [get_adjacencies] lists them. *)
Fixpoint spec_first_match (db : Db) (connectivity : list Z) (adj_ent : list Z)
    : option Z :=
  match adj_ent with
  | [] => None
  | h :: rest =>
      match get_connectivity db h with
      | Some cand =>
          if bool_decide (spec_same_side connectivity cand) then Some h
          else spec_first_match db connectivity rest
      | None => spec_first_match db connectivity rest
      end
  end.

(** ** Element catalog lookups used by the side-set reader

    [ExoIIUtil::ExoIIElementMBEntity] and [VerticesPerElement]. *)

Definition ExoIIElementMBEntity (t : ExoIIElementType) : EntityType :=
  match t with
  | EXOII_elem FSphere _ => MBVERTEX
  | EXOII_elem (FSpring | FBar | FBeam | FTruss) _ => MBEDGE
  | EXOII_elem FTri _ => MBTRI
  | EXOII_elem (FQuad | FShell) _ => MBQUAD
  | EXOII_elem FTetra _ => MBTET
  | EXOII_elem FPyramid _ => MBPYRAMID
  | EXOII_elem FWedge _ => MBPRISM
  | EXOII_elem FKnife _ => MBKNIFE
  | EXOII_elem FHex _ => MBHEX
  | EXOII_elem FHexShell _ => MBMAXTYPE
  | EXOII_MAX_ELEM_TYPE => MBMAXTYPE
  end.

Definition VerticesPerElement (t : ExoIIElementType) : nat :=
  match t with EXOII_elem _ n => n | EXOII_MAX_ELEM_TYPE => 0%nat end.

(** [read_elements] resolves the [elem_type] attribute of [connect<k>]
    only for the blocks it reads; [file_elem_type k] is that attribute. *)
Fixpoint read_elements_types (file_elem_type : nat -> ExoIIElementType)
    (blocks : list ReadBlockData) (block_seq_id : nat) : list ReadBlockData :=
  match blocks with
  | [] => []
  | b :: rest =>
      (if reading_in b then
         {| elemType := file_elem_type block_seq_id; blockId := blockId b;
            startExoId := startExoId b; numElements := numElements b;
            reading_in := reading_in b; startMBId := startMBId b |}
       else b)
      :: read_elements_types file_elem_type rest (S block_seq_id)
  end.

(** ** [ReadNCDF::find_side_element_type]

    Returns the error code, the block data copied out on success, and the
    distribution-factor cursor. *)

Definition skipped_df_advance (elem_type : ExoIIElementType) (side_id : Z) : Z :=
  if in_family FHex elem_type then 4
  else if in_family FTetra elem_type then 3
  else if in_family FQuad elem_type then 2
  else if in_family FShell elem_type then
    (if Z.eqb side_id 1 || Z.eqb side_id 2 then 4 else 2)
  else if in_family FTri elem_type then 3
  else 0.

Fixpoint find_side_element_type (exodus_id : Z) (blocksLoading : list ReadBlockData)
    (df_index : Z) (side_id : Z) : ErrorCode * option ReadBlockData * Z :=
  match blocksLoading with
  | [] => (MB_FAILURE, None, df_index)
  | b :: rest =>
      if Z.leb (startExoId b) exodus_id
         && Z.ltb exodus_id (startExoId b + numElements b) then
        let elem_type := elemType b in
        if negb (reading_in b) then
          (MB_FAILURE, None, df_index + skipped_df_advance elem_type side_id)
        else (MB_SUCCESS, Some b, df_index)
      else find_side_element_type exodus_id rest df_index side_id
  end.



(** ** [ReadNCDF::create_ss_elements]

    The walk over the [(elem_ss, side_ss)] pairs of one side set, with the
    database, the cursor [df_index], [entities_to_add], [reverse_entities]
    and the collected distribution factors as state.  The topology
    catalog [CN::SubEntityNodeIndices] (parent type, parent vertex count,
    sub-entity dimension, side index) and [number_dimensions()] are
    parameters. *)

Record SsState := {
  ss_db : Db;
  df_index : Z;
  entities_to_add : list Z;
  reverse_entities : list Z;
  dist_factor_vector : list (option float)
}.

Section SideSets.

Variable SubEntityNodeIndices : EntityType -> nat -> Z -> Z -> EntityType * list nat.
Variable number_dimensions : Z.
Variable blocksLoading : list ReadBlockData.
Variable num_dist_factors : Z.
Variable temp_dist_factor_vector : list float.

(** [k] times [dist_factor_vector.push_back(temp[df_index++])] when the
    set has distribution factors.  An entry read at or past the end of
    [temp_dist_factor_vector] is undefined behaviour in the source and is
    pushed as None. *)
Fixpoint push_dfs (k : nat) (st : SsState) : SsState :=
  match k with
  | O => st
  | S k' =>
      push_dfs k'
        {| ss_db := ss_db st; df_index := df_index st + 1;
           entities_to_add := entities_to_add st;
           reverse_entities := reverse_entities st;
           dist_factor_vector := dist_factor_vector st
             ++ [temp_dist_factor_vector !! Z.to_nat (df_index st)] |}
  end.

Definition read_dfs (k : nat) (st : SsState) : SsState :=
  if Z.eqb num_dist_factors 0 then st else push_dfs k st.

Definition set_df_index (st : SsState) (d : Z) : SsState :=
  {| ss_db := ss_db st; df_index := d; entities_to_add := entities_to_add st;
     reverse_entities := reverse_entities st;
     dist_factor_vector := dist_factor_vector st |}.

Definition add_entity (st : SsState) (h : Z) : SsState :=
  {| ss_db := ss_db st; df_index := df_index st;
     entities_to_add := entities_to_add st ++ [h];
     reverse_entities := reverse_entities st;
     dist_factor_vector := dist_factor_vector st |}.

Definition add_reverse (st : SsState) (h : Z) : SsState :=
  {| ss_db := ss_db st; df_index := df_index st;
     entities_to_add := entities_to_add st;
     reverse_entities := reverse_entities st ++ [h];
     dist_factor_vector := dist_factor_vector st |}.

(** Get the parent's nodes, gather the side's nodes through the catalog,
    find or create the side and push it on [entities_to_add]. *)
Definition materialize_side (st : SsState) (type : EntityType) (ent_handle : Z)
    (side_dim side_index : Z) : result SsState :=
  match get_connectivity (ss_db st) ent_handle with
  | None => Err MB_FAILURE
  | Some nodes =>
      let '(subtype, side_node_idx) :=
        SubEntityNodeIndices type (length nodes) side_dim side_index in
      if Nat.eqb (length side_node_idx) 0 then Err MB_FAILURE
      else
        let connectivity := map (fun k => nth k nodes 0) side_node_idx in
        let '(db', h) := create_sideset_element (ss_db st) connectivity subtype in
        Ok (add_entity {| ss_db := db'; df_index := df_index st;
                          entities_to_add := entities_to_add st;
                          reverse_entities := reverse_entities st;
                          dist_factor_vector := dist_factor_vector st |} h)
  end.

Definition process_side (st : SsState) (element_id side : Z) : result SsState :=
  match find_side_element_type element_id blocksLoading (df_index st) side with
  | (MB_SUCCESS, Some block_data, d) =>
      let st := set_df_index st d in
      let exoii_type := elemType block_data in
      let type := ExoIIElementMBEntity exoii_type in
      let ent_handle := element_id - startExoId block_data + startMBId block_data in
      let side_num := side - 1 in
      match type with
      | MBHEX =>
          st' ← materialize_side st type ent_handle 2 side_num;
          Ok (read_dfs 4 st')
      | MBTET =>
          st' ← materialize_side st type ent_handle 2 side_num;
          Ok (read_dfs 3 st')
      | MBQUAD =>
          if in_family FShell exoii_type then
            if Z.eqb side 1 then Ok (read_dfs 4 (add_entity st ent_handle))
            else if Z.eqb side 2 then Ok (read_dfs 4 (add_reverse st ent_handle))
            else
              st' ← materialize_side st type ent_handle 1 (side_num - 2);
              Ok (read_dfs 2 st')
          else
            st' ← materialize_side st type ent_handle 1 side_num;
            Ok (read_dfs 2 st')
      | MBTRI =>
          if Z.eqb number_dimensions 3 && Z.leb side 2 then
            Ok (read_dfs 3 (add_entity st ent_handle))
          else
            let side_offset :=
              if Z.eqb number_dimensions 3 && Z.gtb side 2 then 2 else 0 in
            st' ← materialize_side st type ent_handle 1 (side_num - side_offset);
            Ok (read_dfs 2 st')
      | _ => Ok st
      end
  | (_, _, d) => Ok (set_df_index st d)   (* isn't being read in this time *)
  end.

Fixpoint create_ss_elements_loop (st : SsState) (sides : list (Z * Z))
    : result SsState :=
  match sides with
  | [] => Ok st
  | (element_id, side) :: rest =>
      st' ← process_side st element_id side;
      create_ss_elements_loop st' rest
  end.

End SideSets.

(** [temp_dist_factor_vector(num_dist_factors)] (a dimension size, so
    not negative), filled from the variable [dist_fact_ss<id>] (None when
    the file has none) when the set has distribution factors; [get]
    fails when the variable holds fewer than [num_dist_factors] values. *)
Definition read_ss_dist_factors (num_dist_factors : Z) (dist_fact_ss : option (list float))
    : result (list float) :=
  if Z.eqb num_dist_factors 0 then Ok []
  else
    match dist_fact_ss with
    | None => Err MB_FAILURE
    | Some v =>
        if Nat.leb (Z.to_nat num_dist_factors) (length v)
        then Ok (take (Z.to_nat num_dist_factors) v)
        else Err MB_FAILURE
    end.

Definition create_ss_elements SubEntityNodeIndices (number_dimensions : Z)
    (blocksLoading : list ReadBlockData) (num_dist_factors : Z)
    (dist_fact_ss : option (list float)) (db : Db) (element_ids side_list : list Z)
    : result SsState :=
  temp_dist_factor_vector ← read_ss_dist_factors num_dist_factors dist_fact_ss;
  create_ss_elements_loop SubEntityNodeIndices number_dimensions blocksLoading
    num_dist_factors temp_dist_factor_vector
    {| ss_db := db; df_index := 0; entities_to_add := [];
       reverse_entities := []; dist_factor_vector := [] |}
    (zip element_ids side_list).

(** ** Meshsets and their tags

    A meshset is ordered ([MESHSET_ORDERED]: members kept in insertion
    order, repeats kept) or a set ([MESHSET_SET]: a member is stored once).
    Integer tags are association lists from set handle to value; the
    variable-length [distFactor] tag maps a set to its vector. *)

Record meshset := { ms_ordered : bool; ms_members : list Z }.

Record SetStore := {
  sets : list (Z * meshset);
  neumann_tag : list (Z * Z);
  dirichlet_tag : list (Z * Z);
  global_id_tag : list (Z * Z);
  sense_tag : list (Z * Z);
  dist_factor_tag : list (Z * list float);
  next_set : Z
}.

Fixpoint assoc {A} (h : Z) (l : list (Z * A)) : option A :=
  match l with
  | [] => None
  | (k, v) :: l' => if Z.eqb k h then Some v else assoc h l'
  end.

Fixpoint assoc_set {A} (h : Z) (v : A) (l : list (Z * A)) : list (Z * A) :=
  match l with
  | [] => [(h, v)]
  | (k, w) :: l' => if Z.eqb k h then (k, v) :: l' else (k, w) :: assoc_set h v l'
  end.

Definition with_sets (s : SetStore) (ss : list (Z * meshset)) (n : Z) : SetStore :=
  {| sets := ss; neumann_tag := neumann_tag s; dirichlet_tag := dirichlet_tag s;
     global_id_tag := global_id_tag s; sense_tag := sense_tag s;
     dist_factor_tag := dist_factor_tag s; next_set := n |}.

Definition create_meshset (s : SetStore) (ordered : bool) : SetStore * Z :=
  (with_sets s (sets s ++ [(next_set s, {| ms_ordered := ordered; ms_members := [] |})])
             (next_set s + 1), next_set s).

Fixpoint add_unique (members xs : list Z) : list Z :=
  match xs with
  | [] => members
  | x :: xs' => add_unique (if bool_decide (x ∈ members) then members
                            else members ++ [x]) xs'
  end.

Definition add_entities (s : SetStore) (h : Z) (xs : list Z) : SetStore :=
  match assoc h (sets s) with
  | None => s
  | Some m =>
      let m' := {| ms_ordered := ms_ordered m;
                   ms_members := if ms_ordered m then ms_members m ++ xs
                                 else add_unique (ms_members m) xs |} in
      with_sets s (assoc_set h m' (sets s)) (next_set s)
  end.

Inductive IntTag := NEUMANN | DIRICHLET | GLOBAL_ID | SENSE.

Definition tag_set_int (s : SetStore) (t : IntTag) (h v : Z) : SetStore :=
  {| sets := sets s;
     neumann_tag := if (match t with NEUMANN => true | _ => false end) then assoc_set h v (neumann_tag s) else neumann_tag s;
     dirichlet_tag := if (match t with DIRICHLET => true | _ => false end) then assoc_set h v (dirichlet_tag s)
                      else dirichlet_tag s;
     global_id_tag := if (match t with GLOBAL_ID => true | _ => false end) then assoc_set h v (global_id_tag s)
                      else global_id_tag s;
     sense_tag := if (match t with SENSE => true | _ => false end) then assoc_set h v (sense_tag s) else sense_tag s;
     dist_factor_tag := dist_factor_tag s; next_set := next_set s |}.

Definition tag_set_df (s : SetStore) (h : Z) (v : list float) : SetStore :=
  {| sets := sets s; neumann_tag := neumann_tag s; dirichlet_tag := dirichlet_tag s;
     global_id_tag := global_id_tag s; sense_tag := sense_tag s;
     dist_factor_tag := assoc_set h v (dist_factor_tag s); next_set := next_set s |}.

(** ** [ReadNCDF::read_sidesets]: committing one side set

    [existing] is the meshset found by the scan of [child_meshsets] whose
    neumann tag equals the set's id ([ss_handle], None for 0). *)

Definition commit_sideset (s : SetStore) (existing : option Z) (sideset_id : Z)
    (entities_to_add reverse_entities : list Z) (number_dist_factors : Z)
    (temp_dist_factor_vector : list float) : SetStore :=
  if bool_decide (entities_to_add = []) && bool_decide (reverse_entities = [])
  then s
  else
    let '(s, ss_handle) :=
      match existing with
      | Some h => (s, h)
      | None =>
          let '(s, ss_handle) := create_meshset s true in
          let s := tag_set_int s NEUMANN ss_handle sideset_id in
          let s := tag_set_int s GLOBAL_ID ss_handle sideset_id in
          if bool_decide (reverse_entities = []) then (s, ss_handle)
          else
            let '(s, reverse_set) := create_meshset s false in
            let s := add_entities s ss_handle [reverse_set] in
            let s := add_entities s reverse_set reverse_entities in
            (tag_set_int s SENSE reverse_set (-1), ss_handle)
      end in
    let s := add_entities s ss_handle entities_to_add in
    if Z.eqb number_dist_factors 0 then s
    else
      let merged := match assoc ss_handle (dist_factor_tag s) with
                    | Some data => temp_dist_factor_vector ++ data
                    | None => temp_dist_factor_vector
                    end in
      tag_set_df s ss_handle merged.

(** ** [ReadNCDF::read_nodesets]: one node set

    [node_handles] is [node_ns<i>]; [ns_handle] the existing set found by
    the scan (None for 0) and [nodes_of_nodeset] its members.  An index is
    used when [nodesInLoadedBlocks[index] == 1]; indices outside the
    vector are read as unmarked.  [CREATE_HANDLE(MBVERTEX, ...)] is stored
    in an [unsigned int]. *)

Definition node_marked (nodesInLoadedBlocks : list bool) (idx : Z) : bool :=
  Z.leb 0 idx && bool_decide (nodesInLoadedBlocks !! Z.to_nat idx = Some true).

Fixpoint nodeset_collect (nodesInLoadedBlocks : list bool) (vertexOffset : Z)
    (ns_handle : option Z) (nodes_of_nodeset : list Z)
    (number_dist_factors : Z) (temp_dist_factor_vector : list float)
    (node_handles : list Z) (j : nat) : list Z * list float :=
  match node_handles with
  | [] => ([], [])
  | idx :: rest =>
      let '(nodes, dfs) := nodeset_collect nodesInLoadedBlocks vertexOffset ns_handle
                             nodes_of_nodeset number_dist_factors
                             temp_dist_factor_vector rest (S j) in
      if node_marked nodesInLoadedBlocks idx then
        let node_id := to_unsigned32 (idx + vertexOffset) in
        if negb (bool_decide (ns_handle = None)) && bool_decide (node_id ∈ nodes_of_nodeset)
        then (nodes, dfs)
        else (node_id :: nodes,
              if Z.eqb number_dist_factors 0 then dfs
              else default 0%float (temp_dist_factor_vector !! j) :: dfs)
      else (nodes, dfs)
  end.

Definition commit_nodeset (s : SetStore) (ns_handle : option Z) (nodeset_id : Z)
    (nodes : list Z) (dist_factor_vector : list float) : result SetStore :=
  if bool_decide (nodes = []) then Ok s
  else
    s' ← match ns_handle with
         | None =>
             let '(s, h) := create_meshset s true in
             let s := tag_set_int s DIRICHLET h nodeset_id in
             let s := tag_set_int s GLOBAL_ID h nodeset_id in
             Ok (if bool_decide (dist_factor_vector = []) then (s, h)
                 else (tag_set_df s h dist_factor_vector, h))
         | Some h =>
             if bool_decide (dist_factor_vector = []) then Ok (s, h)
             else match assoc h (dist_factor_tag s) with
                  | None => Err MB_FAILURE
                  | Some data => Ok (tag_set_df s h (dist_factor_vector ++ data), h)
                  end
         end;
    let '(s, h) := s' in
    Ok (add_entities s h nodes).

(** ** [ReadNCDF::tokenize]

    Positions are [option nat], [None] being [std::string::npos]. *)

Fixpoint find_from (p : ascii -> bool) (s : list ascii) (i : nat) : option nat :=
  match s with
  | [] => None
  | c :: s' => if p c then Some i else find_from p s' (S i)
  end.

Definition find_first_of (delims s : list ascii) (from : option nat) : option nat :=
  match from with
  | None => None
  | Some f => find_from (fun c => bool_decide (c ∈ delims)) (drop f s) f
  end.

Definition find_first_not_of (delims s : list ascii) (from : option nat) : option nat :=
  match from with
  | None => None
  | Some f => find_from (fun c => negb (bool_decide (c ∈ delims))) (drop f s) f
  end.

Definition substr (s : list ascii) (pos len : nat) : list ascii :=
  take len (drop pos s).

Fixpoint tokenize_loop (delims s : list ascii) (last pos : option nat) (fuel : nat)
    : list (list ascii) :=
  match fuel with
  | O => []
  | S fuel' =>
      match pos, last with
      | Some p, Some l =>
          let tok := substr s l (p - l) in
          let last' := find_first_not_of delims s (Some p) in
          let pos' := find_first_of delims s last' in
          let pos'' := match pos' with None => Some (length s) | _ => pos' end in
          tok :: tokenize_loop delims s last' pos'' fuel'
      | _, _ => []
      end
  end.

Definition tokenize (str delimiters : string) : list string :=
  let s := list_ascii_of_string str in
  let delims := list_ascii_of_string delimiters in
  let last := find_first_not_of delims s (Some 0%nat) in
  let pos := find_first_of delims s last in
  map string_of_list_ascii (tokenize_loop delims s last pos (S (length s))).

(** ** [strtol(s, &endptr, 0)] on a 64-bit [long] *)

Definition LONG_MAX : Z := 2 ^ 63 - 1.
Definition LONG_MIN : Z := - 2 ^ 63.

Definition c_isspace (c : ascii) : bool :=
  let n := nat_of_ascii c in
  Nat.eqb n 32 || (Nat.leb 9 n && Nat.leb n 13).

Definition digit_value (c : ascii) : option Z :=
  let n := Z.of_nat (nat_of_ascii c) in
  if (48 <=? n) && (n <=? 57) then Some (n - 48)
  else if (97 <=? n) && (n <=? 122) then Some (n - 87)
  else if (65 <=? n) && (n <=? 90) then Some (n - 55)
  else None.

Definition is_digit_in (base : Z) (c : ascii) : bool :=
  match digit_value c with Some d => d <? base | None => false end.

(** Accumulate the digits of [base]: value, remaining text, digit count. *)
Fixpoint parse_digits (base : Z) (s : list ascii) (acc : Z) (nd : nat)
    : Z * list ascii * nat :=
  match s with
  | [] => (acc, [], nd)
  | c :: s' =>
      match digit_value c with
      | Some d => if d <? base then parse_digits base s' (acc * base + d) (S nd)
                  else (acc, s, nd)
      | None => (acc, s, nd)
      end
  end.

Fixpoint skip_spaces (s : list ascii) : list ascii :=
  match s with
  | c :: s' => if c_isspace c then skip_spaces s' else s
  | [] => []
  end.

(** The value and the text at [endptr]. *)
Definition strtol0 (str : list ascii) : Z * list ascii :=
  let s1 := skip_spaces str in
  let '(neg, s2) :=
    match s1 with
    | "-"%char :: r => (true, r)
    | "+"%char :: r => (false, r)
    | _ => (false, s1)
    end in
  let '(base, s3) :=
    match s2 with
    | "0"%char :: x :: c :: r =>
        if (bool_decide (x = "x"%char) || bool_decide (x = "X"%char))
           && is_digit_in 16 c then (16, c :: r) else (8, s2)
    | "0"%char :: _ => (8, s2)
    | _ => (10, s2)
    end in
  let '(v, rest, nd) := parse_digits base s3 0 0 in
  if Nat.eqb nd 0 then (0, str)
  else if neg then (Z.max (- v) LONG_MIN, rest) else (Z.min v LONG_MAX, rest).

(** [(int)pval]: the low 32 bits, as a signed value. *)
Definition int_of_long (v : Z) : Z :=
  let u := v mod 2 ^ 32 in if u >=? 2 ^ 31 then u - 2 ^ 32 else u.

(** ** [ReadNCDF::update]: the directive checks

    Step 1 (time step), step 2 (operation) and, after the file has been
    opened and the coordinate arrays read ([file_stage], where each read
    may fail), the checks of the variable name and of the operation.  The
    result is the time step handed to node matching. *)

Definition update_time_step (tokens : list string) : result Z :=
  match tokens !! 1%nat with
  | Some t =>
      if String.eqb t "" then Ok 1
      else
        let '(pval, endp) := strtol0 (list_ascii_of_string t) in
        if negb (bool_decide (endp = [])) then Err MB_TYPE_OUT_OF_RANGE
        else
          let time_step := int_of_long pval in
          if negb (Z.eqb pval time_step) then Err MB_TYPE_OUT_OF_RANGE
          else if time_step <=? 0 then Err MB_TYPE_OUT_OF_RANGE
          else Ok time_step
  | None => Ok 1
  end.

Definition update_checks (tokens : list string) (file_stage : result unit)
    : result Z :=
  time_step ← update_time_step tokens;
  op ← match tokens !! 2%nat with
       | Some o => if String.eqb o "set" || String.eqb o "add" then Ok o
                   else Err MB_TYPE_OUT_OF_RANGE
       | None => Err MB_TYPE_OUT_OF_RANGE
       end;
  _ ← file_stage;
  let var := default "" (tokens !! 0%nat) in
  if negb (String.eqb var "coord") && negb (String.eqb var "COORD")
  then Err MB_NOT_IMPLEMENTED
  else if negb (String.eqb op "set") && negb (String.eqb op " set")
  then Err MB_NOT_IMPLEMENTED
  else Ok time_step.

Definition update_directive (tdata : string) (file_stage : result unit) : result Z :=
  update_checks (tokenize tdata ",") file_stage.

(** The variable-name test of the description: [coord] in any casing. *)
Definition ascii_lower (c : ascii) : ascii :=
  let n := nat_of_ascii c in
  if Nat.leb 65 n && Nat.leb n 90 then ascii_of_nat (n + 32) else c.

Definition is_coord_ci (s : string) : bool :=
  bool_decide (map ascii_lower (list_ascii_of_string s) = list_ascii_of_string "coord").

(** ** [ReadNCDF::update]: matching exodus nodes to reference vertices by id

    [cub_verts] are the reference vertices with their global ids;
    [cub_verts_id_map] and [matched_cub_vert_id_map] are [std::map]s,
    whose [insert] keeps an existing entry.  [ptr] is the [node_num_map]
    vector (zero-filled when the file has none).  [set_coords] on a
    matched vertex of the reference mesh succeeds; it is recorded as the
    pair (vertex, exodus node index). *)

Definition map_insert (k v : Z) (m : gmap Z Z) : gmap Z Z :=
  match m !! k with Some _ => m | None => <[k := v]> m end.

Fixpoint build_cub_verts_id_map (cub_verts : list (Z * Z)) (m : gmap Z Z) : gmap Z Z :=
  match cub_verts with
  | [] => m
  | (h, gid) :: rest => build_cub_verts_id_map rest (map_insert gid h m)
  end.

Record MatchState := {
  found : Z;
  lost : Z;
  matched_cub_vert_id_map : gmap Z Z;
  moved : list (Z * nat)
}.

Fixpoint match_nodes (cub_verts_id_map : gmap Z Z) (ptr : list Z) (i : nat)
    (st : MatchState) : MatchState :=
  match ptr with
  | [] => st
  | exo_id :: rest =>
      let st' :=
        match cub_verts_id_map !! exo_id with
        | Some cub_vert =>
            {| found := found st + 1; lost := lost st;
               matched_cub_vert_id_map :=
                 map_insert exo_id cub_vert (matched_cub_vert_id_map st);
               moved := moved st ++ [(cub_vert, i)] |}
        | None =>
            {| found := found st; lost := lost st + 1;
               matched_cub_vert_id_map := matched_cub_vert_id_map st;
               moved := moved st |}
        end in
      match_nodes cub_verts_id_map rest (S i) st'
  end.

(** The node phase of [update]: matching, then the statistics, where a
    non-zero [lost] is reported (its [return MB_FAILURE] is commented
    out) and the update goes on to dead-element removal. *)
Definition update_node_phase (cub_verts : list (Z * Z)) (ptr : list Z)
    : result MatchState :=
  let st := match_nodes (build_cub_verts_id_map cub_verts ∅) ptr 0
              {| found := 0; lost := 0; matched_cub_vert_id_map := ∅; moved := [] |} in
  Ok st.

(** * Models of further functions of the reader *)

Fixpoint sumZ (l : list Z) : Z :=
  match l with [] => 0 | x :: l' => x + sumZ l' end.

Definition delim_free_run (delims s : list ascii) (l p : nat) : Prop :=
  (l < p)%nat /\ (p <= length s)%nat /\
  forall m c, (l <= m < p)%nat -> s !! m = Some c -> c ∉ delims.

(** ** QA records: [read_qa_string], [read_qa_information], [read_qa_records]

    The [qa_records] variable (None when the file has none) is indexed by
    record, position (0..3) and character; [set_cur(i, j)] fails outside
    it and [get(temp_string, 1, 1, max_str_length)] fails when a row is
    shorter than [max_str_length].  [std::string(&data[0])] stops at the
    first NUL; [data[max_str_length]] is always NUL.  Setting the QA tag
    on the file set succeeds; the tag value is None when it is not set. *)

Definition NUL : ascii := Ascii.zero.

Fixpoint c_str (l : list ascii) : list ascii :=
  match l with
  | [] => []
  | c :: r => if bool_decide (c = NUL) then [] else c :: c_str r
  end.

Definition read_qa_string (qa_records : option (list (list (list ascii))))
    (max_str_length : nat) (record_number record_position : nat) : option (list ascii) :=
  v ← qa_records;
  record ← v !! record_number;
  row ← record !! record_position;
  if Nat.leb max_str_length (length row) then Some (take max_str_length row) else None.

Definition qa_positions (number_records : nat) : list (nat * nat) :=
  flat_map (fun i => map (fun j => (i, j)) (List.seq 0 4)) (List.seq 0 number_records).

Fixpoint read_qa_loop (qa_records : option (list (list (list ascii))))
    (max_str_length : nat) (positions : list (nat * nat)) (qa_record_list : list (list ascii))
    : ErrorCode * list (list ascii) :=
  match positions with
  | [] => (MB_SUCCESS, qa_record_list)
  | (i, j) :: rest =>
      match read_qa_string qa_records max_str_length i j with
      | None => (MB_FAILURE, qa_record_list)
      | Some data =>
          read_qa_loop qa_records max_str_length rest (qa_record_list ++ [c_str (data ++ [NUL])])
      end
  end.

(** [number_records] is the [num_qa_rec] dimension, 0 when absent. *)
Definition read_qa_information (number_records : nat)
    (qa_records : option (list (list (list ascii)))) (max_str_length : nat)
    : ErrorCode * list (list ascii) :=
  read_qa_loop qa_records max_str_length (qa_positions number_records) [].

(** The return code of [read_qa_information] is not looked at. *)
Definition read_qa_records (number_records : nat)
    (qa_records : option (list (list (list ascii)))) (max_str_length : nat)
    : ErrorCode * option (list ascii) :=
  let '(_, qa_record_list) := read_qa_information number_records qa_records max_str_length in
  let tag_data := concat (map (fun r => r ++ [NUL]) qa_record_list) in
  (MB_SUCCESS, if bool_decide (tag_data = []) then None else Some tag_data).

(** A consumer of the tag splits it at the NULs. *)
Fixpoint split_nul (cur : list ascii) (l : list ascii) : list (list ascii) :=
  match l with
  | [] => []
  | c :: r => if bool_decide (c = NUL) then cur :: split_nul [] r
              else split_nul (cur ++ [c]) r
  end.

(** ** [ReadNCDF::read_global_ids]

    [elem_map] and [node_num_map] are the variables (None when absent);
    [get] fails when one holds fewer values than asked for, and [ptr]
    then holds the [numberElements_loading] values read (an entry read
    past them is None: the source reads past the array).  The result is
    the list of pairs (handle, id) handed to [tag_set_data], in call
    order.  [tag_set_data] gives the database's answer for the global ids
    of a range of handles: an error on the elements of a block is
    returned, on the vertices it is only reported.  [MB_START_ID] is 1. *)

Definition handle_range (b : ReadBlockData) : list Z :=
  map (fun k => startMBId b + Z.of_nat k) (List.seq 0 (Z.to_nat (numElements b))).

Section GlobalIds.

Variable tag_set_data : list Z -> ErrorCode.

Fixpoint global_ids_elements (ptr : list Z) (blocks : list ReadBlockData) (ptr_pos : nat)
    : result (list (Z * option Z)) :=
  match blocks with
  | [] => Ok []
  | b :: rest =>
      if reading_in b then
        if negb (Z.eqb (startMBId b) 0) then
          let n := Z.to_nat (numElements b) in
          let tags := map (fun k => (startMBId b + Z.of_nat k, ptr !! (ptr_pos + k)%nat))
                        (List.seq 0 n) in
          match tag_set_data (handle_range b) with
          | MB_SUCCESS =>
              r ← global_ids_elements ptr rest (ptr_pos + n);
              Ok (tags ++ r)
          | error => Err error
          end
        else Err MB_FAILURE
      else global_ids_elements ptr rest ptr_pos
  end.

Definition read_global_ids (elem_map : option (list Z)) (numberElements_loading : nat)
    (blocks : list ReadBlockData) (node_num_map : option (list Z)) (vertexOffset : Z)
    (numberNodes_loading : nat) : result (list (Z * option Z)) :=
  match elem_map with
  | None => Err MB_FAILURE
  | Some v =>
      if negb (Nat.leb numberElements_loading (length v)) then Err MB_FAILURE
      else
        let ptr := take numberElements_loading v in
        elems ← global_ids_elements ptr blocks 0;
        match node_num_map with
        | None => Ok elems
        | Some nptr =>
            if Nat.leb numberNodes_loading (length nptr) then
              Ok (elems ++ map (fun k => (1 + vertexOffset + Z.of_nat k, nptr !! k))
                              (List.seq 0 numberNodes_loading))
            else Err MB_FAILURE
        end
  end.

End GlobalIds.

Definition read_count (blocks : list ReadBlockData) : nat :=
  list_sum (map (fun b => Z.to_nat (numElements b)) (filter (fun b => reading_in b = true) blocks)).

Definition df_prefix (temp : list float) (n : nat) : list (option float) :=
  map (fun i => temp !! i) (List.seq 0 n).

Definition df_inv (num_dist_factors : Z) (temp : list float) (st : SsState) : Prop :=
  (num_dist_factors = 0 -> dist_factor_vector st = []) /\
  (num_dist_factors <> 0 ->
   0 <= df_index st /\
   dist_factor_vector st = df_prefix temp (Z.to_nat (df_index st))).

(** Handles handed out so far are below [next_handle]. *)
Definition handles_below (db : Db) : Prop :=
  Forall (fun p => p.1 < next_handle db) (ents db).

(** ** [ReadNCDF::update]: removing dead elements

    [cub_nodes] is a [Range], a set: [range_insert] adds a handle once.
    [get_adjacencies(cub_nodes, to_dim, false, cub_elem)] intersects:
    the elements of dimension [to_dim] holding every vertex of
    [cub_nodes].  The state is the database and the members of
    [cub_file_set]; [remove_entities] and [delete_entities] of one
    element succeed.  [ptr[elem_conn[k]-1]] is read with [!!!]: an entry
    outside [1 .. numberNodes_loading] reads outside [ptr] in the source. *)

Definition range_insert (h : Z) (r : list Z) : list Z :=
  if bool_decide (h ∈ r) then r else h :: r.

Fixpoint cub_nodes_of (matched_cub_vert_id_map : gmap Z Z) (ids : list Z)
    (cub_nodes : list Z) : list Z :=
  match ids with
  | [] => cub_nodes
  | id :: rest =>
      match matched_cub_vert_id_map !! id with
      | None => cub_nodes   (* break *)
      | Some h => cub_nodes_of matched_cub_vert_id_map rest (range_insert h cub_nodes)
      end
  end.

Definition get_adjacencies_intersect (db : Db) (vs : list Z) (to_dim : Z) : list Z :=
  map fst (filter (fun p => Dimension (etype p.2) = to_dim /\ Forall (fun v => v ∈ econn p.2) vs)
                  (ents db)).

Record UpdState := { u_db : Db; cub_file_set : list Z }.

Definition delete_dead (s : UpdState) (h : Z) : UpdState :=
  {| u_db := {| ents := filter (fun p => p.1 <> h) (ents (u_db s));
                next_handle := next_handle (u_db s) |};
     cub_file_set := filter (fun x => x <> h) (cub_file_set s) |}.

Definition dead_element (s : UpdState) (matched_cub_vert_id_map : gmap Z Z) (ptr : list Z)
    (mb_type : EntityType) (nodes_per_element : nat) (elem_conn : list Z) : result UpdState :=
  let elem_conn_node_ids := map (fun c => ptr !!! Z.to_nat (c - 1)) elem_conn in
  let cub_nodes := cub_nodes_of matched_cub_vert_id_map elem_conn_node_ids [] in
  if negb (Nat.eqb nodes_per_element (length cub_nodes)) then Err MB_INVALID_SIZE
  else
    match get_adjacencies_intersect (u_db s) cub_nodes (Dimension mb_type) with
    | [h] => Ok (delete_dead s h)
    | _ => Err MB_FAILURE
    end.

(** The elements of one block: [exo_conn] holds [nodes_per_element]
    entries per element; an element is dead when [1 != death_status[j]]. *)
Fixpoint dead_elements_loop (s : UpdState) (matched_cub_vert_id_map : gmap Z Z)
    (ptr : list Z) (mb_type : EntityType) (nodes_per_element : nat) (exo_conn : list Z)
    (death_status : list float) (j : nat) (dead_elem_counter : nat) : result (UpdState * nat) :=
  match death_status with
  | [] => Ok (s, dead_elem_counter)
  | d :: rest =>
      if negb (PrimFloat.eqb 1.0%float d) then
        let elem_conn := map (fun k => exo_conn !!! (j * nodes_per_element + k)%nat)
                             (List.seq 0 nodes_per_element) in
        s' ← dead_element s matched_cub_vert_id_map ptr mb_type nodes_per_element elem_conn;
        dead_elements_loop s' matched_cub_vert_id_map ptr mb_type nodes_per_element exo_conn
          rest (S j) (S dead_elem_counter)
      else
        dead_elements_loop s matched_cub_vert_id_map ptr mb_type nodes_per_element exo_conn
          rest (S j) dead_elem_counter
  end.

(** What is read for one block: the [elem_type] attribute of
    [connect<k>], its connectivity and the [death_status] values at the
    time step; None when one of these reads fails. *)
Record DeadBlockFile := {
  blk_elem_type : ExoIIElementType;
  exo_conn : list Z;
  death_status : list float
}.

Fixpoint update_dead_elements (s : UpdState) (matched_cub_vert_id_map : gmap Z Z)
    (ptr : list Z) (blocks : list (option DeadBlockFile)) (total_dead_elems : nat)
    : result (UpdState * nat) :=
  match blocks with
  | [] => Ok (s, total_dead_elems)
  | None :: _ => Err MB_FAILURE
  | Some f :: rest =>
      let mb_type := ExoIIElementMBEntity (blk_elem_type f) in
      let nodes_per_element := VerticesPerElement (blk_elem_type f) in
      '(s', dead_elem_counter) ← dead_elements_loop s matched_cub_vert_id_map ptr mb_type
                                   nodes_per_element (exo_conn f) (death_status f) 0 0;
      update_dead_elements s' matched_cub_vert_id_map ptr rest
        (total_dead_elems + dead_elem_counter)
  end.

Definition dead_count (blocks : list (option DeadBlockFile)) : nat :=
  list_sum (map (fun o => match o with
                          | Some f => length (filter (fun d => PrimFloat.eqb 1.0%float d = false)
                                                (death_status f))
                          | None => 0%nat
                          end) blocks).

(** ** [ReadNCDF::read_tag_values]

    The file as far as this function reads it: whether it opens, what
    [read_exodus_header] returns, the set counts of the header ([GET_DIM]
    gives 0 for an absent dimension) and the [eb_prop1], [ns_prop1] and
    [ss_prop1] variables (None when absent). *)

Inductive TagValuesCode := TV (e : ErrorCode) | MB_TAG_NOT_FOUND.

Record ExoFile := {
  header_read : ErrorCode;
  numberElementBlocks_loading : nat;
  numberNodeSets_loading : nat;
  numberSideSets_loading : nat;
  eb_prop1 : option (list Z);
  ns_prop1 : option (list Z);
  ss_prop1 : option (list Z)
}.

Definition DIRICHLET_SET_TAG_NAME : string := "DIRICHLET_SET".

Definition NEUMANN_SET_TAG_NAME : string := "NEUMANN_SET".

(** [std::vector::resize]: cut, or extend with zeros. *)
Definition resize (count : nat) (v : list Z) : list Z :=
  take count v ++ replicate (count - length v) 0.

(** The tag name selects the count and the [prop] variable. *)
Definition tag_selection (f : ExoFile) (tag_name : string) : option (nat * option (list Z)) :=
  if not_strcmp tag_name MATERIAL_SET_TAG_NAME then
    Some (numberElementBlocks_loading f, eb_prop1 f)
  else if not_strcmp tag_name DIRICHLET_SET_TAG_NAME then
    Some (numberNodeSets_loading f, ns_prop1 f)
  else if not_strcmp tag_name NEUMANN_SET_TAG_NAME then
    Some (numberSideSets_loading f, ss_prop1 f)
  else None.

Definition read_tag_values (file : option ExoFile) (tag_name : string)
    (id_array : list Z) (subset_list : bool) : TagValuesCode * list Z :=
  if subset_list then (TV MB_UNSUPPORTED_OPERATION, id_array)
  else
    match file with
    | None => (TV MB_FILE_DOES_NOT_EXIST, id_array)
    | Some f =>
        match header_read f with
        | MB_FAILURE => (TV MB_FAILURE, id_array)
        | _ =>
            match tag_selection f tag_name with
            | None => (MB_TAG_NOT_FOUND, id_array)
            | Some (count, prop) =>
                if Nat.eqb count 0 then (TV MB_SUCCESS, id_array)
                else
                  match prop with
                  | None => (TV MB_FAILURE, id_array)
                  | Some v =>
                      if Nat.leb count (length v) then (TV MB_SUCCESS, take count v)
                      else (TV MB_FAILURE, resize count id_array)
                  end
            end
        end
    end.

(** ** [ReadNCDF::read_nodes]

    The [coord] variable (None when absent) as its rows; reading [n]
    values of row [r] ([set_cur(r, 0)] then [get]) fails when the row
    does not exist or is shorter.  [node_handle] is given by its id
    [ID_FROM_HANDLE(node_handle)]; [MB_START_ID] is 1. *)

Definition coord_row (rows : list (list float)) (r : nat) (n : nat) : result (list float) :=
  match rows !! r with
  | Some row => if Nat.leb n (length row) then Ok (take n row) else Err MB_FAILURE
  | None => Err MB_FAILURE
  end.

Definition read_nodes (coord : option (list (list float))) (numberDimensions_loading : Z)
    (numberNodes_loading : nat) (node_handle_id : Z)
    : result (Z * list float * list float * list float) :=
  let vertexOffset := node_handle_id - 1 in
  match coord with
  | None => Err MB_FAILURE
  | Some rows =>
      x ← coord_row rows 0 numberNodes_loading;
      y ← coord_row rows 1 numberNodes_loading;
      z ← (if Z.eqb numberDimensions_loading 2
           then Ok (replicate numberNodes_loading 0%float)
           else coord_row rows 2 numberNodes_loading);
      Ok (vertexOffset, x, y, z)
  end.

(** * Properties *)

(** ** Block selection *)

Lemma read_block_headers_loop_reading_in block_ids_all new_blocks num_el_in_blk
    iter seq exodus_id b :
  b ∈ read_block_headers_loop block_ids_all new_blocks num_el_in_blk iter seq exodus_id ->
  reading_in b = true.
Proof.
  revert seq exodus_id.
  induction iter as [|id rest IH]; intros seq exodus_id Hin; simpl in Hin.
  - inversion Hin.
  - apply elem_of_cons in Hin as [-> | Hin]; [|eapply IH; eauto].
    simpl. unfold iter_eqb, std_find, vec_end, new_blocks_c, block_ids_c. simpl.
    reflexivity.
Qed.

(** Every block header gets [reading_in = true]: [std::find] over
    [new_blocks] is compared with [block_ids.end()], an iterator of
    another vector. *)
Lemma read_block_headers_all_selected block_ids blocks_to_load num_blocks
    num_el_in_blk b :
  b ∈ read_block_headers block_ids blocks_to_load num_blocks num_el_in_blk ->
  reading_in b = true.
Proof. apply read_block_headers_loop_reading_in. Qed.

(** C1 (code defect): with [eb_prop1 = [1]] and [blocks_to_load = [2]]
    the block 1, absent from the list, is marked [reading_in = true]. *)
Lemma C1_unlisted_block_marked_read :
  map reading_in (read_block_headers [1] (Some [2]) 1 (fun _ => 1)) = [true] /\
  intended_selected (Some [2]) 1 1 = false.
Proof. split; reflexivity. Qed.

(** ** The subset check of [load_file] *)

(** For a single, non-partitioned subset tag the check rejects exactly
    the material-set tag: [!strcmp] is true on equal names. *)
Lemma load_file_subset_single_tag (t : SubsetTag) :
  load_file_subset (Some {| tag_list0 := t; tag_list_rest := []; num_parts := 0 |}) =
  if String.eqb (tag_name t) MATERIAL_SET_TAG_NAME
  then Err MB_UNSUPPORTED_OPERATION
  else Ok (Some (tag_values t), num_tag_values t).
Proof.
  unfold load_file_subset, tag_list_length, not_strcmp. simpl.
  destruct (String.eqb (tag_name t) MATERIAL_SET_TAG_NAME); reflexivity.
Qed.

(** C2 (code defect): a single-part material-id subset [{MATERIAL_SET:
    [1]}] is refused with the unsupported-operation error. *)
Lemma C2_material_subset_refused :
  load_file_subset
    (Some {| tag_list0 := {| tag_name := "MATERIAL_SET"; tag_values := [1];
                             num_tag_values := 1 |};
             tag_list_rest := []; num_parts := 0 |})
  = Err MB_UNSUPPORTED_OPERATION.
Proof. reflexivity. Qed.

(** ** Connectivity conversion *)

Lemma convert_connectivity_length vertexOffset tmp touched conn touched' :
  convert_connectivity vertexOffset tmp touched = Ok (conn, touched') ->
  length touched' = length touched.
Proof.
  revert conn touched'.
  induction tmp as [|x rest IH]; intros conn touched' H; simpl in H.
  - inversion H; reflexivity.
  - destruct (convert_connectivity vertexOffset rest touched) as [[c t]|e] eqn:E;
      [|discriminate].
    simpl in H.
    destruct (Z.geb (to_unsigned32 x) (Z.of_nat (length t))); [discriminate|].
    inversion H; subst. rewrite length_insert. eapply IH; eauto.
Qed.

(** An on-disk 32-bit entry [x] passes the test of [read_elements] iff
    [0 <= x <= numberNodes_loading]. *)
Lemma convert_entry_accepted (numberNodes_loading x : Z) :
  0 <= numberNodes_loading < 2 ^ 31 -> - 2 ^ 31 <= x < 2 ^ 31 ->
  (Z.geb (to_unsigned32 x) (numberNodes_loading + 1) = false <->
   0 <= x <= numberNodes_loading).
Proof.
  intros Hn Hx. unfold to_unsigned32.
  rewrite Z.geb_leb, Z.leb_gt.
  destruct (Z.leb_spec 0 x).
  - rewrite Z.mod_small by lia. lia.
  - replace (x mod 2 ^ 32) with (x + 2 ^ 32).
    + lia.
    + symmetry. rewrite <- (Z.mod_small (x + 2 ^ 32) (2 ^ 32)) by lia.
      rewrite Z.add_mod, Z.mod_same, Z.add_0_r, Z.mod_mod by lia. reflexivity.
Qed.

(** C3 (code defect): the entry 0 is accepted (only [(unsigned)i >=
    numNodes+1] is refused), converted to the handle [vertexOffset] and
    marks [nodeTouched[0]]. *)
Lemma C3_zero_entry_accepted :
  read_elements_convert 2 100 [0] = Ok ([100], [true; false; false]).
Proof. reflexivity. Qed.

(** ** Committing side sets *)

Definition empty_store : SetStore :=
  {| sets := []; neumann_tag := []; dirichlet_tag := []; global_id_tag := [];
     sense_tag := []; dist_factor_tag := []; next_set := 0 |}.

(** A store holding side set 5 as the ordered meshset 10, with the
    distribution factors [df]. *)
Definition store_with_sideset (df : list float) : SetStore :=
  {| sets := [(10, {| ms_ordered := true; ms_members := [] |})];
     neumann_tag := [(10, 5)]; dirichlet_tag := []; global_id_tag := [(10, 5)];
     sense_tag := []; dist_factor_tag := [(10, df)]; next_set := 11 |}.

(** A fresh side set holding the shell 7 on its front (side 1) and back
    (side 2): the shell once in the set, and once in the single child
    meshset tagged [SENSE = -1]. *)
Example commit_fresh_shell_sideset :
  commit_sideset empty_store None 5 [7] [7] 0 [] =
  {| sets := [(0, {| ms_ordered := true; ms_members := [1; 7] |});
              (1, {| ms_ordered := false; ms_members := [7] |})];
     neumann_tag := [(0, 5)]; dirichlet_tag := []; global_id_tag := [(0, 5)];
     sense_tag := [(1, -1)]; dist_factor_tag := []; next_set := 2 |}.
Proof. reflexivity. Qed.

(** C4 (code defect): when side set 5 already exists (meshset 10), the
    back side of the shell 7 creates no reverse-sense meshset and is put
    in no set at all. *)
Lemma C4_existing_sideset_drops_reverse :
  let r := commit_sideset (store_with_sideset []) (Some 10) 5 [] [7] 0 [] in
  sense_tag r = [] /\ sets r = sets (store_with_sideset []) /\
  Forall (fun p => 7 ∉ ms_members p.2) (sets r).
Proof.
  simpl. split; [reflexivity|]. split; [reflexivity|].
  repeat constructor. simpl. intro H. inversion H.
Qed.

(** ** The update directive *)

(** C5 (counterexample): [Coord] is refused with not-implemented although
    it is [coord] up to case, and the operation [foo] is refused with
    type-out-of-range, not with not-implemented. *)
Lemma C5_directive_counterexample :
  is_coord_ci "Coord" = true /\
  update_directive "Coord,1,set" (Ok tt) = Err MB_NOT_IMPLEMENTED /\
  update_directive "coord,1,foo" (Ok tt) = Err MB_TYPE_OUT_OF_RANGE.
Proof. split; [|split]; reflexivity. Qed.

(** C5 (as the code has it): once the time step parses and the file has
    been read, the directive is refused with type-out-of-range when the
    operation is missing or neither [set] nor [add]; otherwise with
    not-implemented when the variable name is neither [coord] nor [COORD]
    or when the operation is [add]; [coord]/[COORD] with [set] is
    accepted. *)
Theorem update_checks_name_and_operation (tokens : list string) (ts : Z) :
  update_time_step tokens = Ok ts ->
  update_checks tokens (Ok tt) =
  match tokens !! 2%nat with
  | Some op =>
      if String.eqb op "set" || String.eqb op "add" then
        let var := default "" (tokens !! 0%nat) in
        if String.eqb var "coord" || String.eqb var "COORD" then
          (if String.eqb op "set" then Ok ts else Err MB_NOT_IMPLEMENTED)
        else Err MB_NOT_IMPLEMENTED
      else Err MB_TYPE_OUT_OF_RANGE
  | None => Err MB_TYPE_OUT_OF_RANGE
  end.
Proof.
  intros Hts. unfold update_checks. rewrite Hts. cbn [mbind result_bind].
  destruct (tokens !! 2%nat) as [op|]; [|reflexivity].
  destruct (String.eqb_spec op "set") as [->|Hset].
  - cbn -[String.eqb].
    destruct (String.eqb (default "" (tokens !! 0%nat)) "coord");
      destruct (String.eqb (default "" (tokens !! 0%nat)) "COORD"); reflexivity.
  - destruct (String.eqb_spec op "add") as [->|Hadd]; [|reflexivity].
    cbn -[String.eqb].
    destruct (String.eqb (default "" (tokens !! 0%nat)) "coord");
      destruct (String.eqb (default "" (tokens !! 0%nat)) "COORD"); reflexivity.
Qed.

Lemma update_checks_name_and_operation_witness :
  update_time_step ["coord"; "1"; "set"] = Ok 1 /\
  update_checks ["coord"; "1"; "set"] (Ok tt) = Ok 1.
Proof.
  split; [reflexivity|].
  rewrite (update_checks_name_and_operation ["coord"; "1"; "set"] 1 eq_refl).
  reflexivity.
Defined.

(** ** Merging distribution factors *)

Lemma assoc_assoc_set_eq {A} (h : Z) (v : A) l : assoc h (assoc_set h v l) = Some v.
Proof.
  induction l as [|[k w] l IH]; simpl.
  - rewrite Z.eqb_refl. reflexivity.
  - destruct (Z.eqb_spec k h) as [->|Hne]; simpl.
    + rewrite Z.eqb_refl. reflexivity.
    + destruct (Z.eqb_spec k h); [contradiction|]. exact IH.
Qed.

Lemma add_entities_dist_factor_tag s h xs :
  dist_factor_tag (add_entities s h xs) = dist_factor_tag s.
Proof. unfold add_entities. destruct (assoc h (sets s)); reflexivity. Qed.

(** C6 (counterexample): side set 5 holds the factors [[1.0]]; merging
    the newly read [[2.0]] stores [[2.0; 1.0]], not [[1.0; 2.0]]. *)
Lemma C6_merge_order_counterexample :
  let r := commit_sideset (store_with_sideset [1.0%float]) (Some 10) 5 [7] [] 1 [2.0%float] in
  assoc 10 (dist_factor_tag r) = Some [2.0%float; 1.0%float] /\
  assoc 10 (dist_factor_tag r) <> Some ([1.0%float] ++ [2.0%float]).
Proof.
  simpl. split; [reflexivity|].
  intro H.
  apply (f_equal (fun o => match o with
                           | Some (x :: _) => PrimFloat.eqb x 1.0%float
                           | _ => false end)) in H.
  vm_compute in H. discriminate.
Qed.

(** C6 (as the code has it): merging into an existing set that already
    carries the vector [old], both readers store the newly read factors
    followed by [old]. *)
Theorem dist_factors_new_then_old :
  (forall s h sideset_id entities_to_add reverse_entities number_dist_factors
          (temp : list float) (old : list float),
     (entities_to_add <> [] \/ reverse_entities <> []) ->
     number_dist_factors <> 0 ->
     assoc h (dist_factor_tag s) = Some old ->
     assoc h (dist_factor_tag
                (commit_sideset s (Some h) sideset_id entities_to_add
                   reverse_entities number_dist_factors temp))
     = Some (temp ++ old)) /\
  (forall s h nodeset_id nodes (dfv old : list float),
     nodes <> [] -> dfv <> [] ->
     assoc h (dist_factor_tag s) = Some old ->
     exists s', commit_nodeset s (Some h) nodeset_id nodes dfv = Ok s' /\
                assoc h (dist_factor_tag s') = Some (dfv ++ old)).
Proof.
  split.
  - intros s h id add rev ndf temp old Hne Hndf Hold.
    unfold commit_sideset.
    destruct (bool_decide (add = [])) eqn:E1;
      destruct (bool_decide (rev = [])) eqn:E2; simpl;
      try (apply bool_decide_eq_true in E1; apply bool_decide_eq_true in E2;
           destruct Hne; contradiction).
    all: destruct (Z.eqb_spec ndf 0) as [|_]; [contradiction|];
         rewrite add_entities_dist_factor_tag, Hold; apply assoc_assoc_set_eq.
  - intros s h id nodes dfv old Hnodes Hdfv Hold.
    unfold commit_nodeset.
    rewrite (bool_decide_eq_false_2 _ Hnodes), (bool_decide_eq_false_2 _ Hdfv), Hold.
    cbn [mbind result_bind].
    eexists. split; [reflexivity|].
    rewrite add_entities_dist_factor_tag. apply assoc_assoc_set_eq.
Qed.

Lemma dist_factors_new_then_old_witness :
  assoc 10 (dist_factor_tag
    (commit_sideset (store_with_sideset [1.0%float]) (Some 10) 5 [7] [] 1 [2.0%float]))
  = Some ([2.0%float] ++ [1.0%float]) /\
  exists s', commit_nodeset (store_with_sideset [1.0%float]) (Some 10) 3 [4]
               [2.0%float] = Ok s' /\
             assoc 10 (dist_factor_tag s') = Some ([2.0%float] ++ [1.0%float]).
Proof.
  split.
  - apply (proj1 dist_factors_new_then_old); [left; discriminate | lia | reflexivity].
  - apply (proj2 dist_factors_new_then_old); [discriminate | discriminate | reflexivity].
Defined.

(** ** Skipped sides of blocks that are not read *)







(** ** Node-set members come from touched nodes *)

(** C9: every vertex [read_nodesets] collects for a node set is the
    handle of an index [idx] of [node_ns<i>] with
    [nodesInLoadedBlocks[idx] == 1]. *)
Theorem nodeset_members_touched (nodesInLoadedBlocks : list bool) vertexOffset
    ns_handle nodes_of_nodeset number_dist_factors temp node_handles j x :
  x ∈ (nodeset_collect nodesInLoadedBlocks vertexOffset ns_handle nodes_of_nodeset
         number_dist_factors temp node_handles j).1 ->
  exists idx, idx ∈ node_handles /\ node_marked nodesInLoadedBlocks idx = true /\
              x = to_unsigned32 (idx + vertexOffset).
Proof.
  revert j.
  induction node_handles as [|idx rest IH]; intros j Hx; simpl in Hx.
  - inversion Hx.
  - destruct (nodeset_collect nodesInLoadedBlocks vertexOffset ns_handle
                nodes_of_nodeset number_dist_factors temp rest (S j))
      as [nodes dfs] eqn:E.
    assert (Hrest : x ∈ nodes -> exists idx', idx' ∈ idx :: rest /\
              node_marked nodesInLoadedBlocks idx' = true /\
              x = to_unsigned32 (idx' + vertexOffset)).
    { intros Hn. destruct (IH (S j)) as (i' & Hi' & Hm & ->).
      - rewrite E. exact Hn.
      - exists i'. split; [apply elem_of_cons; right; exact Hi'|]. split; auto. }
    destruct (node_marked nodesInLoadedBlocks idx) eqn:Hm; simpl in Hx.
    + destruct (negb (bool_decide (ns_handle = None)) &&
                bool_decide (to_unsigned32 (idx + vertexOffset) ∈ nodes_of_nodeset));
        simpl in Hx.
      * apply Hrest. exact Hx.
      * apply elem_of_cons in Hx as [->|Hx].
        -- exists idx. split; [apply elem_of_cons; left; reflexivity|]. auto.
        -- apply Hrest. exact Hx.
    + apply Hrest. exact Hx.
Qed.

Lemma nodeset_members_touched_witness :
  100 ∈ (nodeset_collect [false; true] 99 None [] 0 [] [1] 0).1 /\
  exists idx, idx ∈ [1] /\ node_marked [false; true] idx = true /\
              100 = to_unsigned32 (idx + 99).
Proof.
  split.
  - simpl. apply elem_of_cons. left. reflexivity.
  - apply (nodeset_members_touched [false; true] 99 None [] 0 [] [1] 0 100).
    simpl. apply elem_of_cons. left. reflexivity.
Defined.

(** ** Node matching in [update] *)

Lemma match_nodes_counts m ptr i st :
  found (match_nodes m ptr i st) + lost (match_nodes m ptr i st) =
  found st + lost st + Z.of_nat (length ptr).
Proof.
  revert i st.
  induction ptr as [|e rest IH]; intros i st; simpl.
  - lia.
  - rewrite IH. destruct (m !! e); simpl; lia.
Qed.

Lemma map_insert_lookup_ne k v m e :
  m !! e = None -> e <> k -> map_insert k v m !! e = None.
Proof.
  intros H Hne. unfold map_insert. destruct (m !! k); [exact H|].
  rewrite lookup_insert_ne by congruence. exact H.
Qed.

Lemma map_insert_lookup_some k v m e :
  m !! e <> None -> map_insert k v m !! e <> None.
Proof.
  intros H. unfold map_insert. destruct (m !! k) eqn:Ek; [exact H|].
  destruct (decide (k = e)) as [->|Hne].
  - rewrite lookup_insert_eq. discriminate.
  - rewrite lookup_insert_ne by exact Hne. exact H.
Qed.

Lemma map_insert_lookup_key k v m : map_insert k v m !! k <> None.
Proof.
  unfold map_insert. destruct (m !! k) eqn:Ek.
  - rewrite Ek. discriminate.
  - rewrite lookup_insert_eq. discriminate.
Qed.

Lemma match_nodes_unmatched m ptr i st e :
  m !! e = None -> matched_cub_vert_id_map st !! e = None ->
  matched_cub_vert_id_map (match_nodes m ptr i st) !! e = None.
Proof.
  revert i st.
  induction ptr as [|x rest IH]; intros i st He Hst; simpl; [exact Hst|].
  apply IH; [exact He|].
  destruct (m !! x) eqn:Ex; simpl; [|exact Hst].
  apply map_insert_lookup_ne; [exact Hst|]. congruence.
Qed.

Lemma match_nodes_keeps m ptr i st e :
  matched_cub_vert_id_map st !! e <> None ->
  matched_cub_vert_id_map (match_nodes m ptr i st) !! e <> None.
Proof.
  revert i st.
  induction ptr as [|x rest IH]; intros i st Hst; simpl; [exact Hst|].
  apply IH. destruct (m !! x); simpl; [|exact Hst].
  apply map_insert_lookup_some. exact Hst.
Qed.

Lemma match_nodes_matched m ptr i st e :
  e ∈ ptr -> m !! e <> None ->
  matched_cub_vert_id_map (match_nodes m ptr i st) !! e <> None.
Proof.
  revert i st.
  induction ptr as [|x rest IH]; intros i st Hin He; simpl.
  - inversion Hin.
  - apply elem_of_cons in Hin as [Heq|Hin].
    + subst x. apply match_nodes_keeps. destruct (m !! e) eqn:Ee; [|contradiction].
      simpl. apply map_insert_lookup_key.
    + apply IH; assumption.
Qed.

(** C10: node matching always lets [update] go on (a non-zero [lost] is
    only reported); each of the exodus nodes is counted once, as found or
    lost; the ids of unmatched nodes are absent from the matched-node
    map, those of matched nodes present. *)
Theorem update_node_phase_accounting (cub_verts : list (Z * Z)) (ptr : list Z) :
  exists st, update_node_phase cub_verts ptr = Ok st /\
    found st + lost st = Z.of_nat (length ptr) /\
    (forall e, e ∈ ptr -> build_cub_verts_id_map cub_verts ∅ !! e = None ->
               matched_cub_vert_id_map st !! e = None) /\
    (forall e, e ∈ ptr -> build_cub_verts_id_map cub_verts ∅ !! e <> None ->
               matched_cub_vert_id_map st !! e <> None).
Proof.
  eexists. split; [reflexivity|]. split; [|split].
  - rewrite match_nodes_counts. simpl. lia.
  - intros e _ He. apply match_nodes_unmatched; [exact He|]. apply lookup_empty.
  - intros e Hin He. apply match_nodes_matched; assumption.
Qed.

Lemma update_node_phase_accounting_witness :
  exists st, update_node_phase [(50, 7)] [7; 8] = Ok st /\
    found st + lost st = Z.of_nat (length [7; 8]) /\
    (forall e, e ∈ [7; 8] -> build_cub_verts_id_map [(50, 7)] ∅ !! e = None ->
               matched_cub_vert_id_map st !! e = None) /\
    (forall e, e ∈ [7; 8] -> build_cub_verts_id_map [(50, 7)] ∅ !! e <> None ->
               matched_cub_vert_id_map st !! e <> None).
Proof. apply (update_node_phase_accounting [(50, 7)] [7; 8]). Defined.

(** ** Reuse of side entities *)

Lemma find_pos_le v x : (find_pos v x <= length v)%nat.
Proof. induction v as [|y v IH]; simpl; [lia|]. destruct (Z.eqb y x); lia. Qed.

Lemma find_pos_lt_iff v x : (find_pos v x < length v)%nat <-> x ∈ v.
Proof.
  induction v as [|y v IH]; simpl.
  - split; [lia|]. intros H. inversion H.
  - rewrite elem_of_cons. destruct (Z.eqb_spec y x) as [->|Hne].
    + split; [auto|lia].
    + rewrite <- IH. split.
      * intros H. right. lia.
      * intros [H|H]; [congruence|lia].
Qed.

Lemma find_pos_nth v x :
  (find_pos v x < length v)%nat -> nth (find_pos v x) v 0 = x.
Proof.
  induction v as [|y v IH]; simpl; [lia|].
  destruct (Z.eqb_spec y x) as [->|Hne]; [reflexivity|].
  intros H. apply IH. lia.
Qed.

Lemma std_rotate_length l p : (p <= length l)%nat -> length (std_rotate l p) = length l.
Proof.
  intros H. unfold std_rotate. rewrite length_app, length_skipn, length_firstn. lia.
Qed.

Lemma std_rotate_head l p :
  (p < length l)%nat -> nth 0 (std_rotate l p) 0 = nth p l 0.
Proof.
  intros H. unfold std_rotate. rewrite app_nth1.
  - rewrite nth_skipn. f_equal. lia.
  - rewrite length_skipn. lia.
Qed.

Lemma fwd_equal_spec c r j n fuel :
  (n - j <= fuel)%nat ->
  fwd_equal c r j n fuel = true <->
  (forall i, (j <= i < n)%nat -> nth i c 0 = nth i r 0).
Proof.
  revert j. induction fuel as [|fuel IH]; intros j Hf; simpl.
  - split; [intros _ i Hi; lia|auto].
  - destruct (Nat.ltb_spec j n) as [Hj|Hj].
    + destruct (Z.eqb_spec (nth j c 0) (nth j r 0)) as [Heq|Hne].
      * rewrite IH by lia. split.
        -- intros H i Hi. destruct (Nat.eq_dec i j) as [->|]; [exact Heq|]. apply H. lia.
        -- intros H i Hi. apply H. lia.
      * split; [discriminate|]. intros H. exfalso. apply Hne, H. lia.
    + split; [intros _ i Hi; lia|auto].
Qed.

Lemma rev_equal_spec c r j k n fuel :
  (k + j = n)%nat -> (n - j <= fuel)%nat ->
  rev_equal c r j k n fuel = true <->
  (forall i, (j <= i < n)%nat -> nth i c 0 = nth (n - i) r 0).
Proof.
  revert j k. induction fuel as [|fuel IH]; intros j k Hk Hf; simpl.
  - split; [intros _ i Hi; lia|auto].
  - destruct (Nat.ltb_spec j n) as [Hj|Hj].
    + replace k with (n - j)%nat at 1 by lia.
      destruct (Z.eqb_spec (nth j c 0) (nth (n - j) r 0)) as [Heq|Hne].
      * rewrite IH by lia. split.
        -- intros H i Hi. destruct (Nat.eq_dec i j) as [->|]; [exact Heq|]. apply H. lia.
        -- intros H i Hi. apply H. lia.
      * split; [discriminate|]. intros H. exfalso. apply Hne, H. lia.
    + split; [intros _ i Hi; lia|auto].
Qed.

Lemma backwards_nth (r : list Z) i :
  (1 <= i < length r)%nat ->
  nth i (take 1 r ++ rev (drop 1 r)) 0 = nth (length r - i) r 0.
Proof.
  intros Hi. destruct r as [|r0 r']; [simpl in Hi; lia|].
  destruct i as [|i]; [lia|]. cbn [length] in Hi.
  change (take 1 (r0 :: r') ++ rev (drop 1 (r0 :: r'))) with (r0 :: rev r').
  change (nth (S i) (r0 :: rev r') 0) with (nth i (rev r') 0).
  rewrite rev_nth by lia.
  replace (length (r0 :: r') - S i)%nat with (S (length r' - S i)) by (simpl; lia).
  reflexivity.
Qed.

Lemma backwards_length (r : list Z) :
  length (take 1 r ++ rev (drop 1 r)) = length r.
Proof. destruct r; simpl; [reflexivity|]. rewrite length_rev. reflexivity. Qed.

Lemma candidate_matches_spec (c m : list Z) :
  candidate_matches c m = true <-> spec_same_side c m.
Proof.
  unfold candidate_matches, spec_same_side, spec_rotated. cbv zeta.
  destruct (Nat.eqb_spec (length m) (length c)) as [Hlen|Hlen]; simpl.
  2: { split; [discriminate|]. intros [H _]. contradiction. }
  pose proof (find_pos_le m (nth 0 c 0)) as Hle.
  destruct (Nat.eqb_spec (find_pos m (nth 0 c 0)) (length m)) as [Hp|Hp]; simpl.
  { split; [discriminate|]. intros [_ [Hin _]].
    apply find_pos_lt_iff in Hin. lia. }
  assert (Hplt : (find_pos m (nth 0 c 0%Z) < length m)%nat) by lia.
  pose proof (std_rotate_length m _ Hle) as Hrl.
  pose proof (std_rotate_head m _ Hplt) as Hr0.
  rewrite find_pos_nth in Hr0 by exact Hplt.
  revert Hrl Hr0.
  generalize (std_rotate m (find_pos m (nth 0 c 0))) as r. intros r Hrl Hr0.
  rewrite orb_true_iff, fwd_equal_spec, rev_equal_spec by lia.
  split.
  - intros H. split; [exact Hlen|]. split; [apply find_pos_lt_iff; exact Hplt|].
    destruct H as [H|H]; [left|right]; apply nth_ext with (d := 0) (d' := 0).
    + lia.
    + intros [|i] Hi; [symmetry; exact Hr0|]. apply H. lia.
    + rewrite backwards_length. lia.
    + intros [|i] Hi.
      * destruct r as [|r0 r']; simpl in *; [lia|]. symmetry. exact Hr0.
      * rewrite backwards_nth by lia. rewrite Hrl, Hlen. apply H. lia.
  - intros (_ & _ & [H|H]); [left|right]; intros i Hi.
    + apply (f_equal (fun l => nth i l 0)) in H. exact H.
    + apply (f_equal (fun l => nth i l 0)) in H. rewrite H.
      rewrite backwards_nth by lia. rewrite Hrl, Hlen. reflexivity.
Qed.

Lemma scan_candidates_spec db c adj :
  scan_candidates db c adj = spec_first_match db c adj.
Proof.
  induction adj as [|h rest IH]; simpl; [reflexivity|].
  destruct (get_connectivity db h) as [m|]; [|exact IH].
  destruct (candidate_matches c m) eqn:E.
  - rewrite bool_decide_eq_true_2; [reflexivity|]. apply candidate_matches_spec, E.
  - rewrite bool_decide_eq_false_2; [exact IH|].
    rewrite <- candidate_matches_spec, E. discriminate.
Qed.

(** C8: [create_sideset_element] returns the first entity adjacent to the
    side's first vertex (in the dimension of the side's type) that has the
    same vertex count and, rotated to start at our first vertex, equals
    our connectivity forwards or backwards; without one it creates a new
    entity with our connectivity. *)
Theorem create_sideset_element_reuse (db : Db) (connectivity : list Z)
    (type : EntityType) :
  create_sideset_element db connectivity type =
  match spec_first_match db connectivity
          (get_adjacencies db (nth 0 connectivity 0) (Dimension type)) with
  | Some h => (db, h)
  | None => create_element db type connectivity
  end.
Proof. unfold create_sideset_element. rewrite scan_candidates_spec. reflexivity. Qed.

(** A quad [1 2 3 4] already in the database is found again from the
    same face seen from the other side, [3 2 1 4]. *)
Example create_sideset_element_reuses_reversed_quad :
  let db := {| ents := [(5, {| etype := MBQUAD; econn := [1; 2; 3; 4] |})];
               next_handle := 6 |} in
  create_sideset_element db [3; 2; 1; 4] MBQUAD = (db, 5) /\
  create_sideset_element db [3; 1; 2; 4] MBQUAD =
    ({| ents := ents db ++ [(6, {| etype := MBQUAD; econn := [3; 1; 2; 4] |})];
        next_handle := 7 |}, 6).
Proof. split; reflexivity. Qed.

(** On 32-bit entries, a successful conversion maps every entry [x] to
    [x + vertexOffset] and marks [nodesInLoadedBlocks[x]]. *)
Lemma convert_connectivity_ok vertexOffset tmp touched conn touched' :
  Forall (fun x => - 2 ^ 31 <= x < 2 ^ 31) tmp ->
  Z.of_nat (length touched) <= 2 ^ 31 ->
  convert_connectivity vertexOffset tmp touched = Ok (conn, touched') ->
  conn = map (fun x => x + vertexOffset) tmp /\
  Forall (fun x => 0 <= x /\ touched' !! Z.to_nat x = Some true) tmp.
Proof.
  intros Hrange Hlen. revert conn touched'.
  induction tmp as [|x rest IH]; intros conn touched' H; simpl in H.
  - inversion H; subst. split; [reflexivity|constructor].
  - inversion Hrange as [|? ? Hx Hrest]; subst.
    destruct (convert_connectivity vertexOffset rest touched) as [[c t]|e] eqn:E;
      [|discriminate].
    simpl in H.
    pose proof (convert_connectivity_length _ _ _ _ _ E) as Ht.
    destruct (Z.geb (to_unsigned32 x) (Z.of_nat (length t))) eqn:Hchk; [discriminate|].
    inversion H; subst.
    destruct (IH Hrest c t eq_refl) as [-> Hall].
    assert (Hx0 : 0 <= x /\ (Z.to_nat x < length t)%nat).
    { unfold to_unsigned32 in Hchk. rewrite Z.geb_leb, Z.leb_gt in Hchk.
      destruct (Z.leb_spec 0 x).
      - rewrite Z.mod_small in Hchk by lia. split; [lia|]. lia.
      - exfalso.
        assert (Hm : x mod 2 ^ 32 = x + 2 ^ 32).
        { rewrite <- (Z.mod_small (x + 2 ^ 32) (2 ^ 32)) by lia.
          rewrite Z.add_mod, Z.mod_same, Z.add_0_r, Z.mod_mod by lia. reflexivity. }
        rewrite Hm in Hchk. lia. }
    split; [reflexivity|]. constructor.
    + split; [lia|]. apply list_lookup_insert_eq. lia.
    + eapply Forall_impl; [exact Hall|]. intros y [Hy0 Hy]. split; [exact Hy0|].
      destruct (decide (Z.to_nat y = Z.to_nat x)) as [Heq|Hne].
      * rewrite Heq. apply list_lookup_insert_eq. lia.
      * rewrite list_lookup_insert_ne by congruence. exact Hy.
Qed.

(** * Further properties of the reader *)

(** ** Block headers: ids, counts and start ids *)

Lemma read_block_headers_loop_lookup block_ids_all new_blocks num_el_in_blk iter
    seq exodus_id k b :
  read_block_headers_loop block_ids_all new_blocks num_el_in_blk iter seq exodus_id
    !! k = Some b ->
  iter !! k = Some (blockId b) /\
  startExoId b = exodus_id + sumZ (map num_el_in_blk (List.seq seq k)) /\
  numElements b = num_el_in_blk (seq + k)%nat /\
  elemType b = EXOII_MAX_ELEM_TYPE.
Proof.
  revert seq exodus_id k.
  induction iter as [|id rest IH]; intros seq exodus_id k Hk; [discriminate|].
  destruct k as [|k]; simpl in Hk.
  - injection Hk as <-. simpl. rewrite Nat.add_0_r. repeat split; lia.
  - destruct (IH _ _ _ Hk) as (H1 & H2 & H3 & H4).
    simpl. split; [exact H1|]. split; [rewrite H2; lia|].
    split; [rewrite H3; f_equal; lia|exact H4].
Qed.

Lemma read_block_headers_loop_length block_ids_all new_blocks num_el_in_blk iter
    seq exodus_id :
  length (read_block_headers_loop block_ids_all new_blocks num_el_in_blk iter seq
            exodus_id) = length iter.
Proof.
  revert seq exodus_id.
  induction iter as [|id rest IH]; intros; simpl; [reflexivity|]. rewrite IH. reflexivity.
Qed.

(** [read_block_headers] yields one record per [eb_prop1] entry, in file
    order: the [k]-th record (0-based) has the [k]-th id, the element
    count [num_el_in_blk<k+1>], the start id [1 + num_el_in_blk1 + ... +
    num_el_in_blk<k>], and no element type yet. *)
Theorem read_block_headers_layout (block_ids : list Z) blocks_to_load num_blocks
    (num_el_in_blk : nat -> Z) :
  length (read_block_headers block_ids blocks_to_load num_blocks num_el_in_blk)
    = length block_ids /\
  forall k b,
    read_block_headers block_ids blocks_to_load num_blocks num_el_in_blk !! k = Some b ->
    block_ids !! k = Some (blockId b) /\
    startExoId b = 1 + sumZ (map num_el_in_blk (List.seq 1 k)) /\
    numElements b = num_el_in_blk (S k) /\
    elemType b = EXOII_MAX_ELEM_TYPE.
Proof.
  split.
  - apply read_block_headers_loop_length.
  - intros k b Hk. apply read_block_headers_loop_lookup in Hk. exact Hk.
Qed.

Lemma read_block_headers_layout_witness :
  length (read_block_headers [10; 20] None 0 (fun k => Z.of_nat k * 3)) = 2%nat /\
  ([10; 20] !! 1%nat = Some 20 /\
   1 + sumZ (map (fun k => Z.of_nat k * 3) (List.seq 1 1)) = 4 /\
   (fun k => Z.of_nat k * 3) 2%nat = 6 /\ EXOII_MAX_ELEM_TYPE = EXOII_MAX_ELEM_TYPE).
Proof.
  destruct (read_block_headers_layout [10; 20] None 0 (fun k => Z.of_nat k * 3))
    as [Hlen Hk].
  split; [exact Hlen|].
  destruct (Hk 1%nat {| elemType := EXOII_MAX_ELEM_TYPE; blockId := 20;
                        startExoId := 4; numElements := 6; reading_in := true;
                        startMBId := 0 |} eq_refl) as (H1 & H2 & H3 & H4).
  simpl in *. split; [exact H1|]. split; [symmetry; exact H2|].
  split; [symmetry; exact H3|reflexivity].
Defined.

(** ** Connectivity conversion succeeds exactly on in-range entries *)

Lemma convert_connectivity_ok_iff numberNodes_loading vertexOffset tmp touched :
  0 <= numberNodes_loading < 2 ^ 31 ->
  Z.of_nat (length touched) = numberNodes_loading + 1 ->
  Forall (fun x => - 2 ^ 31 <= x < 2 ^ 31) tmp ->
  (exists r, convert_connectivity vertexOffset tmp touched = Ok r) <->
  Forall (fun x => 0 <= x <= numberNodes_loading) tmp.
Proof.
  intros Hn Hlen Hrange. induction tmp as [|x rest IH]; simpl.
  - split; [constructor|eauto].
  - inversion Hrange as [|? ? Hx Hrest]; subst.
    rewrite Forall_cons.
    destruct (convert_connectivity vertexOffset rest touched) as [[c t]|e] eqn:E.
    + pose proof (convert_connectivity_length _ _ _ _ _ E) as Ht.
      assert (Hall : Forall (fun x => 0 <= x <= numberNodes_loading) rest)
        by (apply IH; eauto).
      simpl. rewrite Ht, Hlen.
      pose proof (convert_entry_accepted numberNodes_loading x Hn Hx) as Hacc.
      destruct (Z.geb (to_unsigned32 x) (numberNodes_loading + 1)).
      * split; [intros [r Hr]; discriminate|].
        intros [Hx' _]. apply Hacc in Hx'. discriminate.
      * split; [intros _; split; [apply Hacc; reflexivity|exact Hall]|eauto].
    + simpl. split; [intros [r Hr]; discriminate|].
      intros [_ Hall]. apply IH in Hall; [|exact Hrest]. destruct Hall as [r Hr].
      discriminate.
Qed.

(** [read_elements] converts a block's 32-bit connectivity without error
    exactly when every entry lies in [0 .. numberNodes_loading]; the
    converted entries are then the entries plus [vertexOffset]. *)
Theorem read_elements_convert_iff numberNodes_loading vertexOffset tmp :
  0 <= numberNodes_loading < 2 ^ 31 ->
  Forall (fun x => - 2 ^ 31 <= x < 2 ^ 31) tmp ->
  ((exists r, read_elements_convert numberNodes_loading vertexOffset tmp = Ok r) <->
   Forall (fun x => 0 <= x <= numberNodes_loading) tmp) /\
  (forall conn touched,
     read_elements_convert numberNodes_loading vertexOffset tmp = Ok (conn, touched) ->
     conn = map (fun x => x + vertexOffset) tmp).
Proof.
  intros Hn Hrange.
  assert (Hlen : Z.of_nat (length (initial_touched numberNodes_loading))
                 = numberNodes_loading + 1).
  { unfold initial_touched. rewrite length_replicate. lia. }
  split.
  - apply convert_connectivity_ok_iff; assumption.
  - intros conn touched H.
    apply (convert_connectivity_ok vertexOffset tmp (initial_touched numberNodes_loading)
             conn touched Hrange); [lia|exact H].
Qed.

Lemma read_elements_convert_iff_witness :
  Forall (fun x => 0 <= x <= 3) [1; 3; 2] /\
  (exists r, read_elements_convert 3 10 [1; 3; 2] = Ok r).
Proof.
  assert (Hf : Forall (fun x => 0 <= x <= 3) [1; 3; 2]) by (repeat constructor; lia).
  split; [exact Hf|].
  apply (proj1 (read_elements_convert_iff 3 10 [1; 3; 2] ltac:(lia)
                  ltac:(repeat constructor; lia))).
  exact Hf.
Defined.

(** ** One node set of [read_nodesets]: what is collected *)

(** The vertices collected for a node set never repeat a member of the
    existing set they are merged into; without distribution factors in
    the file none is collected, otherwise exactly one per collected
    vertex. *)
Theorem nodeset_collect_invariants (nodesInLoadedBlocks : list bool) vertexOffset
    ns_handle nodes_of_nodeset number_dist_factors temp node_handles j :
  let r := nodeset_collect nodesInLoadedBlocks vertexOffset ns_handle
             nodes_of_nodeset number_dist_factors temp node_handles j in
  (ns_handle <> None -> forall x, x ∈ r.1 -> x ∉ nodes_of_nodeset) /\
  (number_dist_factors = 0 -> r.2 = []) /\
  (number_dist_factors <> 0 -> length r.2 = length r.1).
Proof.
  simpl. revert j.
  induction node_handles as [|idx rest IH]; intros j; simpl.
  - split; [intros _ x Hx; inversion Hx|]. split; reflexivity.
  - specialize (IH (S j)).
    destruct (nodeset_collect nodesInLoadedBlocks vertexOffset ns_handle
                nodes_of_nodeset number_dist_factors temp rest (S j))
      as [nodes dfs] eqn:E.
    simpl in IH. destruct IH as (IH1 & IH2 & IH3).
    destruct (node_marked nodesInLoadedBlocks idx); [|split; [exact IH1|split; assumption]].
    destruct (negb (bool_decide (ns_handle = None)) &&
              bool_decide (to_unsigned32 (idx + vertexOffset) ∈ nodes_of_nodeset))
      eqn:Hdup; simpl; [split; [exact IH1|split; assumption]|].
    split; [|split].
    + intros Hh x Hx. apply elem_of_cons in Hx as [->|Hx]; [|exact (IH1 Hh x Hx)].
      apply andb_false_iff in Hdup as [Hd|Hd].
      * apply negb_false_iff, bool_decide_eq_true in Hd. contradiction.
      * apply bool_decide_eq_false in Hd. exact Hd.
    + intros H0. subst. simpl. apply IH2. reflexivity.
    + intros H0. destruct (Z.eqb_spec number_dist_factors 0); [contradiction|].
      simpl. rewrite IH3 by exact H0. reflexivity.
Qed.

Lemma nodeset_collect_invariants_witness :
  (nodeset_collect [false; true; true] 99 (Some 5) [100] 1
     [0.5%float; 0.25%float] [1; 2] 0).1 = [101] /\
  (Some 5 <> None -> forall x, x ∈ [101] -> x ∉ [100]).
Proof.
  split; [reflexivity|].
  exact (proj1 (nodeset_collect_invariants [false; true; true] 99 (Some 5) [100] 1
                  [0.5%float; 0.25%float] [1; 2] 0)).
Defined.

(** ** Node matching: how many exodus nodes are found *)

Lemma build_cub_verts_id_map_lookup cub_verts m g :
  build_cub_verts_id_map cub_verts m !! g =
  match m !! g with
  | Some h => Some h
  | None => (fun p => fst (snd p)) <$> list_find (fun p => snd p = g) cub_verts
  end.
Proof.
  revert m. induction cub_verts as [|[h gid] rest IH]; intros m; simpl.
  - destruct (m !! g); reflexivity.
  - rewrite IH. unfold map_insert.
    destruct (decide (gid = g)) as [->|Hne].
    + destruct (m !! g) eqn:Em; [rewrite Em; reflexivity|].
      rewrite lookup_insert_eq. reflexivity.
    + destruct (m !! gid) eqn:Egid.
      * destruct (m !! g); [reflexivity|].
        destruct (list_find (fun p => snd p = g) rest) as [[i p]|]; reflexivity.
      * rewrite lookup_insert_ne by exact Hne.
        destruct (m !! g); [reflexivity|].
        destruct (list_find (fun p => snd p = g) rest) as [[i p]|]; reflexivity.
Qed.

(** The id map of the reference vertices maps a global id to the first
    reference vertex carrying it ([std::map::insert] keeps the first). *)
Theorem cub_verts_id_map_first cub_verts g :
  build_cub_verts_id_map cub_verts ∅ !! g =
  (fun p => fst (snd p)) <$> list_find (fun p => snd p = g) cub_verts.
Proof. rewrite build_cub_verts_id_map_lookup, lookup_empty. reflexivity. Qed.

Lemma build_cub_verts_id_map_is_Some cub_verts g :
  is_Some (build_cub_verts_id_map cub_verts ∅ !! g) <-> g ∈ map snd cub_verts.
Proof.
  rewrite cub_verts_id_map_first.
  induction cub_verts as [|[h gid] rest IH]; simpl.
  - split; [intros [x Hx]; discriminate|intros H; inversion H].
  - rewrite elem_of_cons.
    destruct (decide (gid = g)) as [->|Hne]; simpl.
    + split; [intros _; left; reflexivity|intros _; eexists; reflexivity].
    + rewrite <- IH.
      destruct (list_find (fun p => snd p = g) rest) as [[i p]|]; simpl;
        split; try (intros [x Hx]; discriminate);
        try (intros [H|H]; [congruence|exact H]);
        try (intros H; right; exact H); intros _; eexists; reflexivity.
Qed.

Lemma match_nodes_found m ptr i st :
  found (match_nodes m ptr i st) =
  found st + Z.of_nat (length (filter (fun e => is_Some (m !! e)) ptr)) /\
  lost (match_nodes m ptr i st) =
  lost st + Z.of_nat (length (filter (fun e => ¬ is_Some (m !! e)) ptr)).
Proof.
  revert i st.
  induction ptr as [|e rest IH]; intros i st; simpl; [lia|].
  rewrite !filter_cons.
  destruct (m !! e) eqn:Em; simpl; rewrite !(proj1 (IH _ _)), !(proj2 (IH _ _)); simpl.
  - destruct (decide (is_Some (Some z))) as [_|H]; [|exfalso; apply H; eexists; reflexivity].
    destruct (decide (¬ is_Some (Some z))) as [H|_]; [exfalso; apply H; eexists; reflexivity|].
    simpl. split; lia.
  - destruct (decide (is_Some (@None Z))) as [[x Hx]|_]; [discriminate|].
    destruct (decide (¬ is_Some (@None Z))) as [_|H]; [|exfalso; apply H; intros [x Hx]; discriminate].
    simpl. split; lia.
Qed.

(** The node phase of [update] counts as found exactly the entries of
    the node map that are the global id of some reference vertex, and
    as lost the others. *)
Theorem update_node_phase_found_lost cub_verts ptr st :
  update_node_phase cub_verts ptr = Ok st ->
  found st = Z.of_nat (length (filter (fun e => e ∈ map snd cub_verts) ptr)) /\
  lost st = Z.of_nat (length (filter (fun e => e ∉ map snd cub_verts) ptr)).
Proof.
  unfold update_node_phase. intros H. injection H as <-.
  rewrite !(proj1 (match_nodes_found _ _ _ _)), !(proj2 (match_nodes_found _ _ _ _)).
  simpl.
  rewrite (list_filter_iff _ (fun e => e ∈ map snd cub_verts) ptr
             (fun e => build_cub_verts_id_map_is_Some cub_verts e)).
  split; [reflexivity|]. rewrite Z.add_0_l. do 2 f_equal.
  apply list_filter_iff. intros e. rewrite build_cub_verts_id_map_is_Some. reflexivity.
Qed.

Lemma update_node_phase_found_lost_witness :
  exists st, update_node_phase [(1, 7); (2, 8)] [7; 9; 8; 7] = Ok st /\
  found st = 3 /\ lost st = 1.
Proof.
  eexists. split; [reflexivity|].
  destruct (update_node_phase_found_lost [(1, 7); (2, 8)] [7; 9; 8; 7] _ eq_refl)
    as [H1 H2].
  rewrite H1, H2. split; reflexivity.
Defined.

(** ** The time step of an update directive *)

(** A time step accepted by [update] is a positive [int]: it lies in
    [1 .. 2^31 - 1]. *)
Theorem update_time_step_range tokens ts :
  update_time_step tokens = Ok ts -> 1 <= ts <= 2 ^ 31 - 1.
Proof.
  unfold update_time_step. intros H.
  destruct (tokens !! 1%nat) as [t|]; [|injection H as <-; lia].
  destruct (String.eqb t ""); [injection H as <-; lia|].
  destruct (strtol0 (list_ascii_of_string t)) as [pval endp].
  destruct (negb (bool_decide (endp = []))); [discriminate|].
  destruct (negb (pval =? int_of_long pval)); [discriminate|].
  destruct (Z.leb_spec (int_of_long pval) 0); [discriminate|].
  injection H as <-. split; [lia|].
  unfold int_of_long.
  pose proof (Z.mod_pos_bound pval (2 ^ 32) ltac:(lia)).
  destruct (Z.geb_spec (pval mod 2 ^ 32) (2 ^ 31)); lia.
Qed.

Lemma update_time_step_range_witness :
  update_time_step [""; "0x10"] = Ok 16 /\ 1 <= 16 <= 2 ^ 31 - 1.
Proof.
  split; [reflexivity|]. apply (update_time_step_range [""; "0x10"]). reflexivity.
Defined.

(** ** [tokenize]: what the tokens are *)

Lemma find_from_some (p : ascii -> bool) s i k :
  find_from p s i = Some k ->
  (i <= k)%nat /\ (exists c, s !! (k - i)%nat = Some c /\ p c = true) /\
  forall m c, (m < k - i)%nat -> s !! m = Some c -> p c = false.
Proof.
  revert i. induction s as [|c s IH]; intros i H; simpl in H; [discriminate|].
  destruct (p c) eqn:Hc.
  - injection H as <-. rewrite Nat.sub_diag. split; [lia|].
    split; [exists c; split; [reflexivity|exact Hc]|]. intros m c' Hm. lia.
  - destruct (IH _ H) as (Hle & (c' & Hc' & Hp) & Hbefore). split; [lia|].
    split.
    + exists c'. replace (k - i)%nat with (S (k - S i)) by lia. split; assumption.
    + intros [|m] c'' Hm Hl; simpl in Hl.
      * injection Hl as <-. exact Hc.
      * apply (Hbefore m); [lia|exact Hl].
Qed.

Lemma find_from_none (p : ascii -> bool) s i :
  find_from p s i = None -> forall m c, s !! m = Some c -> p c = false.
Proof.
  revert i. induction s as [|c s IH]; intros i H m c' Hl; simpl in *; [discriminate|].
  destruct (p c) eqn:Hc; [discriminate|].
  destruct m as [|m]; simpl in Hl; [injection Hl as <-; exact Hc|].
  exact (IH _ H m c' Hl).
Qed.

Lemma find_from_none_intro (p : ascii -> bool) s i :
  (forall c, c ∈ s -> p c = false) -> find_from p s i = None.
Proof.
  revert i. induction s as [|c s IH]; intros i H; simpl; [reflexivity|].
  rewrite (H c) by (apply elem_of_cons; left; reflexivity).
  apply IH. intros c' Hc'. apply H. apply elem_of_cons. right. exact Hc'.
Qed.

Lemma find_from_drop_some (p : ascii -> bool) s f k :
  find_from p (drop f s) f = Some k ->
  (f <= k)%nat /\ (exists c, s !! k = Some c /\ p c = true) /\
  forall m c, (f <= m < k)%nat -> s !! m = Some c -> p c = false.
Proof.
  intros H. destruct (find_from_some _ _ _ _ H) as (Hle & (c & Hc & Hp) & Hb).
  rewrite lookup_drop in Hc. replace (f + (k - f))%nat with k in Hc by lia.
  split; [exact Hle|]. split; [eauto|].
  intros m c' Hm Hl. apply (Hb (m - f)%nat); [lia|].
  rewrite lookup_drop. replace (f + (m - f))%nat with m by lia. exact Hl.
Qed.

Lemma find_from_drop_none (p : ascii -> bool) s f :
  find_from p (drop f s) f = None ->
  forall m c, (f <= m)%nat -> s !! m = Some c -> p c = false.
Proof.
  intros H m c Hm Hl. apply (find_from_none _ _ _ H (m - f)%nat).
  rewrite lookup_drop. replace (f + (m - f))%nat with m by lia. exact Hl.
Qed.

Lemma tokenize_loop_tokens delims s fuel last pos :
  match last, pos with Some l, Some p => delim_free_run delims s l p | _, _ => True end ->
  forall tok, tok ∈ tokenize_loop delims s last pos fuel ->
  tok <> [] /\ forall c, c ∈ tok -> c ∉ delims.
Proof.
  revert last pos. induction fuel as [|fuel IH]; intros last pos Hinv tok Htok;
    simpl in Htok; [inversion Htok|].
  destruct pos as [p|]; [|inversion Htok]. destruct last as [l|]; [|inversion Htok].
  destruct Hinv as (Hlp & Hps & Hrun).
  apply elem_of_cons in Htok as [->|Htok].
  - unfold substr. split.
    + intros Hnil. apply (f_equal length) in Hnil.
      rewrite length_take, length_drop in Hnil. simpl in Hnil. lia.
    + intros c Hc. apply list_elem_of_lookup in Hc as [i Hi].
      assert (i < p - l)%nat.
      { apply lookup_lt_Some in Hi. rewrite length_take in Hi. lia. }
      rewrite lookup_take_lt in Hi by lia. rewrite lookup_drop in Hi.
      apply (Hrun (l + i)%nat); [lia|exact Hi].
  - eapply IH; [|exact Htok].
    unfold find_first_not_of.
    destruct (find_from (fun c => negb (bool_decide (c ∈ delims))) (drop p s) p)
      as [l'|] eqn:El; [|exact I].
    destruct (find_from_drop_some _ _ _ _ El) as (Hpl' & (c & Hc & Hnd) & _).
    apply negb_true_iff, bool_decide_eq_false in Hnd.
    pose proof (lookup_lt_Some _ _ _ Hc) as Hl's.
    unfold find_first_of.
    destruct (find_from (fun c => bool_decide (c ∈ delims)) (drop l' s) l')
      as [p'|] eqn:Ep.
    + destruct (find_from_drop_some _ _ _ _ Ep) as (Hlp' & (c' & Hc' & Hd) & Hb).
      apply bool_decide_eq_true in Hd.
      assert (l' <> p') by (intros ->; congruence).
      split; [lia|]. split; [apply lookup_lt_Some in Hc'; lia|].
      intros m c'' Hm Hl. eapply bool_decide_eq_false_1, Hb; eauto.
    + split; [lia|]. split; [lia|].
      intros m c'' Hm Hl. eapply bool_decide_eq_false_1.
      eapply (find_from_drop_none _ _ _ Ep); [|exact Hl]. lia.
Qed.

(** Every token [tokenize] yields is non-empty and holds no delimiter. *)
Theorem tokenize_tokens (str delimiters : string) :
  forall tok, tok ∈ tokenize str delimiters ->
  tok <> ""%string /\
  forall c, c ∈ list_ascii_of_string tok -> c ∉ list_ascii_of_string delimiters.
Proof.
  intros tok Htok. unfold tokenize in Htok.
  apply list_elem_of_In, in_map_iff in Htok as [t [<- Ht%list_elem_of_In]].
  set (s := list_ascii_of_string str) in *.
  set (delims := list_ascii_of_string delimiters) in *.
  assert (H : t <> [] /\ forall c, c ∈ t -> c ∉ delims).
  { eapply tokenize_loop_tokens; [|exact Ht].
    unfold find_first_not_of.
    destruct (find_from (fun c => negb (bool_decide (c ∈ delims))) (drop 0 s) 0)
      as [l|] eqn:El; [|exact I].
    destruct (find_from_drop_some _ _ _ _ El) as (_ & (c & Hc & Hnd) & _).
    apply negb_true_iff, bool_decide_eq_false in Hnd.
    unfold find_first_of.
    destruct (find_from (fun c => bool_decide (c ∈ delims)) (drop l s) l)
      as [p|] eqn:Ep; [|exact I].
    destruct (find_from_drop_some _ _ _ _ Ep) as (Hlp & (c' & Hc' & Hd) & Hb).
    apply bool_decide_eq_true in Hd.
    assert (l <> p) by (intros ->; congruence).
    split; [lia|]. split; [apply lookup_lt_Some in Hc'; lia|].
    intros m c'' Hm Hl. eapply bool_decide_eq_false_1, Hb; eauto. }
  destruct H as [Hne Hnd]. rewrite list_ascii_of_string_of_list_ascii.
  split; [|exact Hnd].
  intros Heq. apply Hne.
  rewrite <- (list_ascii_of_string_of_list_ascii t), Heq. reflexivity.
Qed.

Lemma tokenize_no_delimiter str delimiters :
  (forall c, c ∈ list_ascii_of_string str -> c ∉ list_ascii_of_string delimiters) ->
  tokenize str delimiters = [].
Proof.
  intros H. unfold tokenize.
  set (s := list_ascii_of_string str) in *.
  set (delims := list_ascii_of_string delimiters) in *.
  unfold find_first_of.
  destruct (find_first_not_of delims s (Some 0%nat)) as [l|]; [|reflexivity].
  rewrite find_from_none_intro; [reflexivity|].
  intros c Hc. apply bool_decide_eq_false_2. apply H.
  apply list_elem_of_lookup in Hc as [i Hi]. rewrite lookup_drop in Hi.
  apply list_elem_of_lookup. eauto.
Qed.

(** An update directive without a comma splits into no token at all, so
    [update] refuses it with type-out-of-range whatever the file holds. *)
Theorem update_directive_without_comma tdata file_stage :
  ","%char ∉ list_ascii_of_string tdata ->
  update_directive tdata file_stage = Err MB_TYPE_OUT_OF_RANGE.
Proof.
  intros H. unfold update_directive.
  rewrite tokenize_no_delimiter; [reflexivity|].
  intros c Hc Hd. simpl in Hd. apply elem_of_cons in Hd as [->|Hd]; [contradiction|].
  inversion Hd.
Qed.

Lemma update_directive_without_comma_witness :
  (","%char ∉ list_ascii_of_string "coord") /\
  update_directive "coord" (Ok tt) = Err MB_TYPE_OUT_OF_RANGE.
Proof.
  assert (H : ","%char ∉ list_ascii_of_string "coord") by (simpl; set_solver).
  split; [exact H|]. exact (update_directive_without_comma "coord" (Ok tt) H).
Defined.

Lemma tokenize_tokens_witness :
  tokenize "coord,1,set" "," = ["coord"%string; "1"%string; "set"%string] /\
  ("set"%string <> ""%string /\
   forall c, c ∈ list_ascii_of_string "set" -> c ∉ list_ascii_of_string ",").
Proof.
  split; [reflexivity|].
  apply (tokenize_tokens "coord,1,set" ",").
  vm_compute. apply elem_of_cons. right. apply elem_of_cons. right.
  apply elem_of_cons. left. reflexivity.
Defined.

(** *** QA records *)

Lemma split_nul_app cur x rest :
  NUL ∉ x -> split_nul cur (x ++ NUL :: rest) = (cur ++ x) :: split_nul [] rest.
Proof.
  revert cur. induction x as [|c x IH]; intros cur Hx; simpl.
  - rewrite app_nil_r. reflexivity.
  - rewrite bool_decide_eq_false_2
      by (intros ->; apply Hx; apply elem_of_cons; left; reflexivity).
    rewrite IH by (intros H; apply Hx; apply elem_of_cons; right; exact H).
    rewrite <- app_assoc. reflexivity.
Qed.

Lemma split_nul_concat recs :
  Forall (fun r => NUL ∉ r) recs ->
  split_nul [] (concat (map (fun r => r ++ [NUL]) recs)) = recs.
Proof.
  induction recs as [|r recs IH]; intros H; simpl; [reflexivity|].
  inversion H as [|? ? Hr Hrs]; subst.
  rewrite <- app_assoc. simpl. rewrite split_nul_app by exact Hr.
  rewrite IH by exact Hrs. reflexivity.
Qed.

Lemma c_str_no_nul l : NUL ∉ c_str l.
Proof.
  induction l as [|c l IH]; simpl; [intros H; inversion H|].
  destruct (bool_decide (c = NUL)) eqn:E; [intros H; inversion H|].
  apply bool_decide_eq_false in E.
  intros H. apply elem_of_cons in H as [H|H]; [congruence|contradiction].
Qed.

Lemma read_qa_loop_strings qa msl positions acc :
  Forall (fun r => NUL ∉ r) acc ->
  Forall (fun r => NUL ∉ r) (read_qa_loop qa msl positions acc).2.
Proof.
  revert acc. induction positions as [|[i j] rest IH]; intros acc Hacc; simpl; [exact Hacc|].
  destruct (read_qa_string qa msl i j); [|exact Hacc].
  apply IH. apply Forall_app. split; [exact Hacc|]. constructor; [apply c_str_no_nul|constructor].
Qed.

(** The QA tag [read_qa_records] stores splits back at its NULs into the
    strings [read_qa_information] read, whether or not that read
    completed; no tag is stored exactly when no string was read. *)
Theorem read_qa_records_round_trip number_records qa max_str_length :
  let recs := (read_qa_information number_records qa max_str_length).2 in
  match read_qa_records number_records qa max_str_length with
  | (MB_SUCCESS, None) => recs = []
  | (MB_SUCCESS, Some tag_data) => recs <> [] /\ split_nul [] tag_data = recs
  | _ => False
  end.
Proof.
  simpl. unfold read_qa_records.
  destruct (read_qa_information number_records qa max_str_length) as [code recs] eqn:E.
  assert (Hs : Forall (fun r => NUL ∉ r) recs).
  { unfold read_qa_information in E.
    pose proof (read_qa_loop_strings qa max_str_length (qa_positions number_records) []
                  (Forall_nil_2 _)) as H.
    rewrite E in H. exact H. }
  simpl.
  destruct recs as [|r recs'].
  - reflexivity.
  - rewrite bool_decide_eq_false_2.
    + split; [discriminate|]. apply split_nul_concat. exact Hs.
    + simpl. intros H. apply (f_equal length) in H. rewrite !length_app in H. simpl in H. lia.
Qed.

Lemma read_qa_loop_ok qa msl positions acc :
  (forall i j, (i, j) ∈ positions -> exists row,
     (v ← qa; record ← v !! i; record !! j) = Some row /\ (msl <= length row)%nat) ->
  read_qa_loop qa msl positions acc =
  (MB_SUCCESS, acc ++ map (fun p => c_str (take msl
                   (default [] (v ← qa; record ← v !! p.1; record !! p.2)))) positions).
Proof.
  revert acc. induction positions as [|[i j] rest IH]; intros acc H; simpl.
  - rewrite app_nil_r. reflexivity.
  - destruct (H i j) as (row & Hrow & Hlen); [apply elem_of_cons; left; reflexivity|].
    unfold read_qa_string.
    destruct qa as [v|]; simpl in Hrow |- *; [|discriminate].
    destruct (v !! i) as [record|]; simpl in Hrow |- *; [|discriminate].
    destruct (record !! j) as [row'|]; simpl in Hrow |- *; [|discriminate].
    injection Hrow as ->.
    apply Nat.leb_le in Hlen. rewrite Hlen.
    rewrite IH.
    + rewrite <- app_assoc. simpl. f_equal. f_equal. f_equal.
      clear. induction (take msl row) as [|c l IHl]; simpl.
      * reflexivity.
      * destruct (bool_decide (c = NUL)); [reflexivity|]. rewrite IHl. reflexivity.
    + intros i' j' Hin. apply H. apply elem_of_cons. right. exact Hin.
Qed.

Lemma elem_of_qa_positions number_records i j :
  (i, j) ∈ qa_positions number_records -> (i < number_records)%nat /\ (j < 4)%nat.
Proof.
  unfold qa_positions. intros H.
  apply list_elem_of_In, in_flat_map in H as (i' & Hi' & Hj).
  apply in_map_iff in Hj as (j' & Heq & Hj'). injection Heq as <- <-.
  apply in_seq in Hi', Hj'. lia.
Qed.

(** With the [qa_records] variable present and every one of its
    [number_records] x 4 rows at least [max_str_length] long,
    [read_qa_information] succeeds with 4 strings per record, in record
    order: each is its row cut at [max_str_length] characters and at its
    first NUL. *)
Theorem read_qa_information_ok number_records v max_str_length :
  (forall i j, (i < number_records)%nat -> (j < 4)%nat -> exists row,
     (record ← v !! i; record !! j) = Some row /\ (max_str_length <= length row)%nat) ->
  let r := read_qa_information number_records (Some v) max_str_length in
  r.1 = MB_SUCCESS /\
  r.2 = map (fun p => c_str (take max_str_length
                        (default [] (record ← v !! p.1; record !! p.2))))
            (qa_positions number_records) /\
  length r.2 = (4 * number_records)%nat /\
  Forall (fun s => (length s <= max_str_length)%nat /\ NUL ∉ s) r.2.
Proof.
  intros H. simpl. unfold read_qa_information.
  rewrite read_qa_loop_ok.
  - simpl. split; [reflexivity|]. split; [reflexivity|]. split.
    + rewrite length_map. unfold qa_positions.
      clear H. induction number_records as [|n IHn]; [reflexivity|].
      rewrite (seq_S n 0), flat_map_app, length_app, IHn. simpl. lia.
    + apply Forall_forall. intros s Hs. apply list_elem_of_In, in_map_iff in Hs as (p & <- & _).
      split; [|apply c_str_no_nul].
      assert (Hc : forall l, (length (c_str l) <= length l)%nat).
      { induction l as [|c l IHl]; simpl; [lia|].
        destruct (bool_decide (c = NUL)); simpl; lia. }
      etransitivity; [apply Hc|]. rewrite length_take. lia.
  - intros i j Hin. apply elem_of_qa_positions in Hin as [Hi Hj].
    destruct (H i j Hi Hj) as (row & Hrow & Hlen). exists row. split; [|exact Hlen].
    simpl. exact Hrow.
Qed.

Lemma read_qa_information_ok_witness :
  (forall i j, (i < 1)%nat -> (j < 4)%nat -> exists row,
     (record ← [[["a"%char; "b"%char]; ["c"%char; NUL]; ["d"%char; "e"%char];
                 ["f"%char; "g"%char]]] !! i; record !! j) = Some row /\
     (2 <= length row)%nat) /\
  (read_qa_information 1 (Some [[["a"%char; "b"%char]; ["c"%char; NUL];
       ["d"%char; "e"%char]; ["f"%char; "g"%char]]]) 2).1 = MB_SUCCESS.
Proof.
  assert (H : forall i j, (i < 1)%nat -> (j < 4)%nat -> exists row,
     (record ← [[["a"%char; "b"%char]; ["c"%char; NUL]; ["d"%char; "e"%char];
                 ["f"%char; "g"%char]]] !! i; record !! j) = Some row /\
     (2 <= length row)%nat).
  { intros i j Hi Hj. destruct i as [|i]; [|lia].
    destruct j as [|[|[|[|j]]]]; try lia; eexists; split; try reflexivity; simpl; lia. }
  split; [exact H|].
  exact (proj1 (read_qa_information_ok 1 _ 2 H)).
Defined.

(** A file with [num_qa_rec > 0] but no [qa_records] variable: the read
    of the QA strings fails on the first one, yet [read_qa_records]
    reports success and stores no QA tag. *)
Theorem read_qa_records_missing_variable number_records max_str_length :
  (0 < number_records)%nat ->
  read_qa_information number_records None max_str_length = (MB_FAILURE, []) /\
  read_qa_records number_records None max_str_length = (MB_SUCCESS, None).
Proof.
  intros H. destruct number_records as [|n]; [lia|].
  unfold read_qa_records, read_qa_information. simpl. split; reflexivity.
Qed.

Lemma read_qa_records_missing_variable_witness :
  read_qa_records 2 None 32 = (MB_SUCCESS, None).
Proof. exact (proj2 (read_qa_records_missing_variable 2 32 ltac:(lia))). Defined.

(** *** Element global ids *)

Lemma map_seq_offset {A} (f : nat -> A) p s n :
  map (fun k => f (p + k)%nat) (List.seq s n) = map f (List.seq (p + s) n).
Proof.
  revert s. induction n as [|n IH]; intros s; simpl; [reflexivity|].
  rewrite IH. do 3 f_equal. lia.
Qed.

Lemma global_ids_elements_spec tag_set_data ptr blocks ptr_pos tags :
  global_ids_elements tag_set_data ptr blocks ptr_pos = Ok tags ->
  map fst tags = concat (map handle_range (filter (fun b => reading_in b = true) blocks)) /\
  map snd tags = map (fun i => ptr !! i) (List.seq ptr_pos (read_count blocks)).
Proof.
  unfold read_count.
  revert ptr_pos tags. induction blocks as [|b rest IH]; intros ptr_pos tags H; simpl in H.
  - injection H as <-. split; reflexivity.
  - rewrite filter_cons.
    destruct (reading_in b) eqn:Hb.
    + destruct (negb (startMBId b =? 0)); [|discriminate].
      destruct (tag_set_data (handle_range b)); try discriminate.
      destruct (global_ids_elements tag_set_data ptr rest (ptr_pos + Z.to_nat (numElements b)))
        as [r|e] eqn:Er; [|discriminate].
      simpl in H. injection H as <-.
      destruct (IH _ _ Er) as [H1 H2].
      rewrite decide_True by reflexivity. simpl.
      rewrite !map_app, H1, H2. split.
      * unfold handle_range. rewrite map_map. reflexivity.
      * rewrite map_map. simpl. rewrite seq_app, map_app. f_equal.
        rewrite (map_seq_offset (fun i => ptr !! i)), Nat.add_0_r. reflexivity.
    + rewrite decide_False by congruence. exact (IH _ _ H).
Qed.

Lemma global_ids_elements_ok_iff tag_set_data ptr blocks ptr_pos :
  (exists tags, global_ids_elements tag_set_data ptr blocks ptr_pos = Ok tags) <->
  Forall (fun b => reading_in b = true ->
                   startMBId b <> 0 /\ tag_set_data (handle_range b) = MB_SUCCESS) blocks.
Proof.
  revert ptr_pos. induction blocks as [|b rest IH]; intros ptr_pos; simpl.
  - split; [constructor|eauto].
  - rewrite Forall_cons.
    destruct (reading_in b) eqn:Hb.
    + destruct (Z.eqb_spec (startMBId b) 0) as [H0|H0]; simpl.
      * split; [intros [t Ht]; discriminate|]. intros [H _].
        exfalso. exact (proj1 (H eq_refl) H0).
      * destruct (tag_set_data (handle_range b)) eqn:Et;
          try (split; [intros [t Ht]; discriminate
                      |intros [H _]; destruct (H eq_refl) as [_ H']; congruence]).
        rewrite <- IH. split.
        -- intros [t Ht].
           destruct (global_ids_elements tag_set_data ptr rest
                       (ptr_pos + Z.to_nat (numElements b))) eqn:E; [|discriminate].
           split; [intros _; split; [exact H0|reflexivity]|eauto].
        -- intros [_ [t Ht]]. rewrite Ht. simpl. eauto.
    + rewrite IH. split; [intros H; split; [discriminate|exact H]|intros [_ H]; exact H].
Qed.

(** [read_global_ids] succeeds exactly when the file has an [elem_map]
    of at least [numberElements_loading] values, every block being read
    has a start handle ([startMBId != 0]) and the database takes the
    global ids of its elements, and a [node_num_map], when present, has
    at least [numberNodes_loading] values; the database's answer for the
    vertices never makes it fail. *)
Theorem read_global_ids_ok_iff tag_set_data elem_map numberElements_loading blocks
    node_num_map vertexOffset numberNodes_loading :
  (exists tags, read_global_ids tag_set_data elem_map numberElements_loading blocks
                  node_num_map vertexOffset numberNodes_loading = Ok tags) <->
  (exists v, elem_map = Some v /\ (numberElements_loading <= length v)%nat) /\
  Forall (fun b => reading_in b = true ->
                   startMBId b <> 0 /\ tag_set_data (handle_range b) = MB_SUCCESS) blocks /\
  (forall nptr, node_num_map = Some nptr -> (numberNodes_loading <= length nptr)%nat).
Proof.
  unfold read_global_ids. destruct elem_map as [v|].
  - destruct (Nat.leb_spec numberElements_loading (length v)) as [Hl|Hl]; simpl.
    + rewrite <- (global_ids_elements_ok_iff tag_set_data (take numberElements_loading v) blocks 0).
      destruct (global_ids_elements tag_set_data (take numberElements_loading v) blocks 0)
        as [e|err] eqn:E; simpl.
      * assert (Hv : exists w, Some v = Some w /\ (numberElements_loading <= length w)%nat)
          by (exists v; split; [reflexivity|exact Hl]).
        destruct node_num_map as [nptr|].
        -- destruct (Nat.leb_spec numberNodes_loading (length nptr)) as [Hn|Hn].
           ++ split; [intros _|intros _; eauto].
              split; [exact Hv|]. split; [eauto|].
              intros nptr' Hn'. injection Hn' as <-. exact Hn.
           ++ split; [intros [t Ht]; discriminate|].
              intros (_ & _ & Hn'). specialize (Hn' nptr eq_refl). lia.
        -- split; [intros _|intros _; eauto].
           split; [exact Hv|]. split; [eauto|]. intros nptr' Hn'. discriminate.
      * split; [intros [t Ht]; discriminate|]. intros (_ & [t Ht] & _). discriminate.
    + split; [intros [t Ht]; discriminate|].
      intros ([w [Hw Hlw]] & _). injection Hw as <-. lia.
  - split; [intros [t H]; discriminate|]. intros ([w [Hw _]] & _). discriminate.
Qed.

(** The global ids [read_global_ids] sets: the element handles of the
    blocks being read, block after block, get the consecutive entries
    [elem_map[0 ..]], a block not read using none (so the entries of a
    later block are those of the skipped one); then, when the file has a
    [node_num_map], vertex [1 + vertexOffset + k] gets its entry [k]. *)
Theorem read_global_ids_layout tag_set_data ptr numberElements_loading blocks node_num_map
    vertexOffset numberNodes_loading tags :
  read_global_ids tag_set_data (Some ptr) numberElements_loading blocks node_num_map
    vertexOffset numberNodes_loading = Ok tags ->
  exists elems nodes, tags = elems ++ nodes /\
    map fst elems = concat (map handle_range (filter (fun b => reading_in b = true) blocks)) /\
    map snd elems = map (fun i => take numberElements_loading ptr !! i)
                        (List.seq 0 (read_count blocks)) /\
    nodes = match node_num_map with
            | None => []
            | Some nptr => map (fun k => (1 + vertexOffset + Z.of_nat k, nptr !! k))
                               (List.seq 0 numberNodes_loading)
            end.
Proof.
  unfold read_global_ids. intros H.
  destruct (Nat.leb_spec numberElements_loading (length ptr)); simpl in H; [|discriminate].
  destruct (global_ids_elements tag_set_data (take numberElements_loading ptr) blocks 0)
    as [elems|e] eqn:E; [|discriminate].
  simpl in H. destruct (global_ids_elements_spec _ _ _ _ _ E) as [H1 H2].
  exists elems. destruct node_num_map as [nptr|].
  - destruct (Nat.leb numberNodes_loading (length nptr)); [|discriminate].
    injection H as <-.
    eexists. split; [reflexivity|]. split; [exact H1|]. split; [exact H2|reflexivity].
  - injection H as <-.
    exists []. split; [rewrite app_nil_r; reflexivity|].
    split; [exact H1|]. split; [exact H2|reflexivity].
Qed.

(** Two blocks of two elements, the first one not read. *)
Definition skipped_then_read_blocks : list ReadBlockData :=
  [{| elemType := EXOII_MAX_ELEM_TYPE; blockId := 1; startExoId := 1;
      numElements := 2; reading_in := false; startMBId := 0 |};
   {| elemType := EXOII_MAX_ELEM_TYPE; blockId := 2; startExoId := 3;
      numElements := 2; reading_in := true; startMBId := 50 |}].

Lemma read_global_ids_layout_witness :
  read_global_ids (fun _ => MB_SUCCESS) (Some [11; 12; 13; 14]) 4
    skipped_then_read_blocks None 0 0
    = Ok [(50, Some 11); (51, Some 12)] /\
  exists elems nodes, [(50, Some 11); (51, Some 12)] = elems ++ nodes /\
    map snd elems = map (fun i => take 4 [11; 12; 13; 14] !! i)
                      (List.seq 0 (read_count skipped_then_read_blocks)).
Proof.
  split; [reflexivity|].
  destruct (read_global_ids_layout (fun _ => MB_SUCCESS) [11; 12; 13; 14] 4
              skipped_then_read_blocks None 0 0
              [(50, Some 11); (51, Some 12)] eq_refl)
    as (elems & nodes & H1 & _ & H3 & _).
  exists elems, nodes. split; assumption.
Defined.

(** *** Distribution factors gathered by [create_ss_elements] *)

Lemma find_side_element_type_all_read exodus_id blocks d side c o d' :
  Forall (fun b => reading_in b = true) blocks ->
  find_side_element_type exodus_id blocks d side = (c, o, d') -> d' = d.
Proof.
  induction blocks as [|b rest IH]; intros Hall H; simpl in H.
  - injection H as _ _ <-. reflexivity.
  - inversion Hall as [|? ? Hb Hrest]; subst.
    destruct ((startExoId b <=? exodus_id) && (exodus_id <? startExoId b + numElements b)).
    + rewrite Hb in H. simpl in H. injection H as _ _ <-. reflexivity.
    + exact (IH Hrest H).
Qed.

Lemma df_inv_push_dfs temp k st :
  0 <= df_index st -> dist_factor_vector st = df_prefix temp (Z.to_nat (df_index st)) ->
  0 <= df_index (push_dfs temp k st) /\
  dist_factor_vector (push_dfs temp k st)
  = df_prefix temp (Z.to_nat (df_index (push_dfs temp k st))).
Proof.
  revert st. induction k as [|k IH]; intros st H0 Hv; simpl; [split; assumption|].
  apply IH; simpl; [lia|].
  rewrite Hv. unfold df_prefix.
  replace (Z.to_nat (df_index st + 1)) with (S (Z.to_nat (df_index st))) by lia.
  rewrite seq_S, map_app. reflexivity.
Qed.

Lemma df_inv_read_dfs ndf temp k st :
  df_inv ndf temp st -> df_inv ndf temp (read_dfs ndf temp k st).
Proof.
  unfold read_dfs. destruct (Z.eqb_spec ndf 0) as [->|Hn]; [tauto|].
  intros [_ H]. destruct (H Hn) as [H0 Hv]. split; [contradiction|].
  intros _. apply df_inv_push_dfs; assumption.
Qed.

Lemma df_inv_set_df_index ndf temp st :
  df_inv ndf temp st -> df_inv ndf temp (set_df_index st (df_index st)).
Proof. destruct st; exact (fun H => H). Qed.

Lemma df_inv_add_entity ndf temp st h :
  df_inv ndf temp st -> df_inv ndf temp (add_entity st h).
Proof. destruct st; exact (fun H => H). Qed.

Lemma df_inv_add_reverse ndf temp st h :
  df_inv ndf temp st -> df_inv ndf temp (add_reverse st h).
Proof. destruct st; exact (fun H => H). Qed.

Lemma df_inv_materialize_side SEI ndf temp st type ent_handle side_dim side_index st' :
  materialize_side SEI st type ent_handle side_dim side_index = Ok st' ->
  df_inv ndf temp st -> df_inv ndf temp st'.
Proof.
  unfold materialize_side.
  destruct (get_connectivity (ss_db st) ent_handle) as [nodes|]; [|discriminate].
  destruct (SEI type (length nodes) side_dim side_index) as [subtype idx].
  destruct (Nat.eqb (length idx) 0); [discriminate|].
  destruct (create_sideset_element (ss_db st) (map (fun k => nth k nodes 0) idx) subtype)
    as [db' h].
  intros H. injection H as <-. destruct st; exact (fun H => H).
Qed.

Lemma df_inv_process_side SEI number_dimensions blocks ndf temp st element_id side st' :
  Forall (fun b => reading_in b = true) blocks ->
  df_inv ndf temp st ->
  process_side SEI number_dimensions blocks ndf temp st element_id side = Ok st' ->
  df_inv ndf temp st'.
Proof.
  intros Hall Hinv H. unfold process_side in H.
  destruct (find_side_element_type element_id blocks (df_index st) side)
    as [[c o] d] eqn:Ef.
  apply find_side_element_type_all_read in Ef; [subst d|exact Hall].
  pose proof (df_inv_set_df_index ndf temp st Hinv) as Hs.
  set (st0 := set_df_index st (df_index st)) in *.
  destruct c; try (injection H as <-; exact Hs).
  destruct o as [block_data|]; [|injection H as <-; exact Hs].
  repeat match type of H with
         | context [if ?b then _ else _] => destruct b
         | context [materialize_side ?A ?B ?C ?D ?E ?F] =>
             let Em := fresh "Em" in
             destruct (materialize_side A B C D E F) as [sm|] eqn:Em; simpl in H;
             [apply (df_inv_materialize_side _ ndf temp) in Em; [|exact Hs]|discriminate]
         | context [match ExoIIElementMBEntity ?t with _ => _ end] =>
             destruct (ExoIIElementMBEntity t)
         end;
    injection H as <-;
    first [exact Hs
          | apply df_inv_read_dfs; first [exact Em | apply df_inv_add_entity; exact Hs
                                         | apply df_inv_add_reverse; exact Hs]].
Qed.

Lemma create_ss_elements_loop_df_inv SEI number_dimensions blocks ndf temp s sides st :
  Forall (fun b => reading_in b = true) blocks ->
  df_inv ndf temp s ->
  create_ss_elements_loop SEI number_dimensions blocks ndf temp s sides = Ok st ->
  df_inv ndf temp st.
Proof.
  intros Hall. revert s.
  induction sides as [|[element_id side] rest IH]; intros s Hinv H; simpl in H.
  - injection H as <-. exact Hinv.
  - destruct (process_side SEI number_dimensions blocks ndf temp s element_id side)
      as [s'|e] eqn:Ep; [|discriminate].
    simpl in H. apply (IH s'); [|exact H].
    eapply df_inv_process_side; eauto.
Qed.

Lemma df_prefix_some (l : list float) m :
  (m <= length l)%nat -> df_prefix l m = map Some (take m l).
Proof.
  induction m as [|m IH]; intros Hm; [reflexivity|].
  unfold df_prefix in *. rewrite (seq_S m 0), map_app, IH by lia.
  destruct (lookup_lt_is_Some_2 l m) as [x Hx]; [lia|].
  rewrite (take_S_r l m x Hx), map_app. simpl. rewrite Hx. reflexivity.
Qed.

(** With every block read, a successful [create_ss_elements] on a side
    set with [num_df] distribution factors has read [dist_fact_ss] (it
    has at least [num_df] values) and gathered, in order and without
    gaps, the entries [0 .. df_index - 1] of the [num_df] values read,
    where an entry past them is a read past the vector (None); when the
    sides need no more than [num_df] factors, the gathered factors are
    exactly the first [df_index] values of [dist_fact_ss].  Without
    distribution factors it gathers none. *)
Theorem create_ss_elements_dist_factors SEI number_dimensions blocks ndf dist_fact_ss db
    element_ids side_list st :
  Forall (fun b => reading_in b = true) blocks ->
  create_ss_elements SEI number_dimensions blocks ndf dist_fact_ss db element_ids side_list
    = Ok st ->
  (ndf = 0 -> dist_factor_vector st = []) /\
  (ndf <> 0 -> exists v, dist_fact_ss = Some v /\ (Z.to_nat ndf <= length v)%nat /\
     dist_factor_vector st = df_prefix (take (Z.to_nat ndf) v) (Z.to_nat (df_index st)) /\
     (df_index st <= ndf ->
      dist_factor_vector st = map Some (take (Z.to_nat (df_index st)) v))).
Proof.
  intros Hall H. unfold create_ss_elements in H.
  destruct (read_ss_dist_factors ndf dist_fact_ss) as [temp|e] eqn:Er; [|discriminate].
  simpl in H.
  assert (Hinv : df_inv ndf temp st).
  { eapply create_ss_elements_loop_df_inv; [exact Hall| |exact H].
    split; [reflexivity|]. intros _. split; reflexivity. }
  destruct Hinv as [Hz Hnz].
  unfold read_ss_dist_factors in Er.
  destruct (Z.eqb_spec ndf 0) as [Hn|Hn].
  - split; [exact Hz|]. intros Hn'. contradiction.
  - split; [intros Hn'; contradiction|]. intros _.
    destruct dist_fact_ss as [v|]; [|discriminate].
    destruct (Nat.leb_spec (Z.to_nat ndf) (length v)) as [Hl|Hl]; [|discriminate].
    injection Er as <-. destruct (Hnz Hn) as [H0 Hv].
    exists v. split; [reflexivity|]. split; [exact Hl|]. split; [exact Hv|].
    intros Hle. rewrite Hv, df_prefix_some.
    + rewrite take_take. f_equal. f_equal. lia.
    + rewrite length_take. lia.
Qed.

Lemma create_ss_elements_dist_factors_witness :
  exists st,
    create_ss_elements (fun _ _ _ _ => (MBQUAD, [])) 3
      [{| elemType := EXOII_elem FShell 4; blockId := 1; startExoId := 1;
          numElements := 1; reading_in := true; startMBId := 7 |}] 4
      (Some [0.5%float; 0.25%float; 0.125%float; 1.0%float])
      {| ents := []; next_handle := 1 |} [1] [1] = Ok st /\
    dist_factor_vector st =
      map Some [0.5%float; 0.25%float; 0.125%float; 1.0%float].
Proof.
  eexists. split; [reflexivity|].
  destruct (proj2 (create_ss_elements_dist_factors (fun _ _ _ _ => (MBQUAD, [])) 3
                     [{| elemType := EXOII_elem FShell 4; blockId := 1; startExoId := 1;
                         numElements := 1; reading_in := true; startMBId := 7 |}] 4
                     (Some [0.5%float; 0.25%float; 0.125%float; 1.0%float])
                     {| ents := []; next_handle := 1 |} [1] [1] _
                     (ltac:(repeat constructor)) eq_refl) ltac:(lia))
    as (v & Hv & _ & _ & H).
  injection Hv as <-. rewrite H by (simpl; lia). reflexivity.
Defined.

(** *** Side entities are created once *)

Lemma get_connectivity_extend db e n' h :
  h ∈ map fst (ents db) ->
  get_connectivity {| ents := ents db ++ [e]; next_handle := n' |} h =
  get_connectivity db h.
Proof.
  intros Hh. unfold get_connectivity. simpl.
  destruct (list_find (fun p => p.1 = h) (ents db)) as [[i p]|] eqn:E.
  - rewrite (list_find_app_l _ _ _ _ _ E). reflexivity.
  - apply list_find_None in E. apply list_elem_of_In, in_map_iff in Hh as (p & Hp & Hin).
    apply list_elem_of_In in Hin. rewrite Forall_forall in E. exfalso. exact (E p Hin Hp).
Qed.

Lemma scan_candidates_extend db e n' c adj :
  (forall h, h ∈ adj -> h ∈ map fst (ents db)) ->
  scan_candidates {| ents := ents db ++ [e]; next_handle := n' |} c adj =
  scan_candidates db c adj.
Proof.
  induction adj as [|h rest IH]; intros Hadj; simpl; [reflexivity|].
  rewrite get_connectivity_extend by (apply Hadj; apply elem_of_cons; left; reflexivity).
  rewrite IH by (intros h' Hh'; apply Hadj; apply elem_of_cons; right; exact Hh').
  reflexivity.
Qed.

Lemma scan_candidates_app db c l1 l2 :
  scan_candidates db c (l1 ++ l2) =
  match scan_candidates db c l1 with Some h => Some h | None => scan_candidates db c l2 end.
Proof.
  induction l1 as [|h rest IH]; simpl; [reflexivity|].
  destruct (get_connectivity db h); [|exact IH].
  destruct (candidate_matches c l); [reflexivity|exact IH].
Qed.

Lemma candidate_matches_refl c : c <> [] -> candidate_matches c c = true.
Proof.
  intros Hc. apply candidate_matches_spec. destruct c as [|x r]; [contradiction|].
  unfold spec_same_side, spec_rotated. simpl. rewrite Z.eqb_refl.
  split; [reflexivity|]. split; [apply elem_of_cons; left; reflexivity|].
  left. unfold std_rotate. simpl. rewrite app_nil_r. reflexivity.
Qed.

Lemma get_adjacencies_handles db v d h :
  h ∈ get_adjacencies db v d -> h ∈ map fst (ents db).
Proof.
  unfold get_adjacencies. intros H.
  apply list_elem_of_In, in_map_iff in H as (p & <- & Hp).
  apply list_elem_of_In in Hp. apply list_elem_of_filter in Hp as [_ Hp].
  apply list_elem_of_In, in_map. apply list_elem_of_In. exact Hp.
Qed.

(** Materializing the same side twice gives the same entity: the second
    call of [create_sideset_element] with the same connectivity and type
    finds the entity the first one returned (found or created) and adds
    nothing, given a non-empty connectivity and a database whose handles
    are below its next handle, which the call preserves. *)
Theorem create_sideset_element_idempotent db connectivity type :
  handles_below db -> connectivity <> [] ->
  let '(db1, h) := create_sideset_element db connectivity type in
  create_sideset_element db1 connectivity type = (db1, h) /\ handles_below db1.
Proof.
  intros Hwf Hc.
  unfold create_sideset_element at 1.
  destruct (scan_candidates db connectivity
              (get_adjacencies db (nth 0 connectivity 0) (Dimension type)))
    as [h|] eqn:Es.
  - split; [|exact Hwf]. unfold create_sideset_element. rewrite Es. reflexivity.
  - simpl. split.
    + unfold create_sideset_element, get_adjacencies. simpl.
      rewrite filter_app, map_app, filter_cons, filter_nil.
      rewrite decide_True.
      2: { split; [reflexivity|]. destruct connectivity as [|x r]; [contradiction|].
           apply elem_of_cons. left. reflexivity. }
      simpl. rewrite scan_candidates_app.
      fold (get_adjacencies db (nth 0 connectivity 0) (Dimension type)).
      rewrite scan_candidates_extend by apply get_adjacencies_handles.
      rewrite Es. simpl. unfold get_connectivity. simpl.
      rewrite list_find_app_r.
      * simpl. rewrite decide_True by reflexivity. simpl.
        rewrite candidate_matches_refl by exact Hc. reflexivity.
      * apply list_find_None. eapply Forall_impl; [exact Hwf|]. simpl. intros p Hp Heq. lia.
    + unfold handles_below. simpl. apply Forall_app. split.
      * eapply Forall_impl; [exact Hwf|]. simpl. intros p Hp. lia.
      * constructor; [simpl; lia|constructor].
Qed.

Lemma create_sideset_element_idempotent_witness :
  create_sideset_element {| ents := []; next_handle := 1 |} [3; 4] MBEDGE
    = ({| ents := [(1, {| etype := MBEDGE; econn := [3; 4] |})]; next_handle := 2 |}, 1) /\
  create_sideset_element
    {| ents := [(1, {| etype := MBEDGE; econn := [3; 4] |})]; next_handle := 2 |} [3; 4] MBEDGE
    = ({| ents := [(1, {| etype := MBEDGE; econn := [3; 4] |})]; next_handle := 2 |}, 1).
Proof.
  split; [reflexivity|].
  exact (proj1 (create_sideset_element_idempotent {| ents := []; next_handle := 1 |}
                  [3; 4] MBEDGE (Forall_nil_2 _) ltac:(discriminate))).
Defined.

(** *** Dead elements *)

Lemma cub_nodes_of_bound m ids acc :
  (length (cub_nodes_of m ids acc) <= length acc + length ids)%nat.
Proof.
  revert acc. induction ids as [|id r IH]; intros acc; simpl; [lia|].
  destruct (m !! id) as [h|]; [|lia].
  etransitivity; [apply IH|]. unfold range_insert.
  case_bool_decide; simpl; lia.
Qed.

Lemma not_in_map_iff {A} (f : A -> Z) l h : h ∉ map f l <-> Forall (fun x => f x <> h) l.
Proof.
  induction l as [|x l IH]; simpl.
  - split; [constructor|intros _ H; inversion H].
  - rewrite not_elem_of_cons, Forall_cons, IH. split; intros [H1 H2]; split; auto.
Qed.

Lemma cub_nodes_of_full m ids acc :
  length (cub_nodes_of m ids acc) = (length acc + length ids)%nat <->
  Forall (fun id => is_Some (m !! id)) ids /\ NoDup (map (fun id => m !!! id) ids) /\
  Forall (fun id => m !!! id ∉ acc) ids.
Proof.
  revert acc. induction ids as [|id r IH]; intros acc; simpl.
  - split; [intros _; repeat constructor|intros _; lia].
  - destruct (m !! id) as [h|] eqn:E.
    + assert (Hh : m !!! id = h) by (apply lookup_total_correct; exact E).
      assert (Hs : is_Some (m !! id)) by (rewrite E; eexists; reflexivity).
      unfold range_insert. case_bool_decide as Hin.
      * pose proof (cub_nodes_of_bound m r acc). split; [intros Hl; lia|].
        intros (_ & _ & Hf). rewrite Forall_cons, Hh in Hf. destruct Hf as [Hf _].
        contradiction.
      * replace (length acc + S (length r))%nat with (length (h :: acc) + length r)%nat
          by (simpl; lia).
        rewrite IH, !Forall_cons, NoDup_cons, not_in_map_iff, Hh.
        assert (Hsplit : Forall (fun x => m !!! x ∉ h :: acc) r <->
                         Forall (fun x => m !!! x <> h) r /\ Forall (fun x => m !!! x ∉ acc) r).
        { rewrite <- Forall_and. apply Forall_iff. intros x. apply not_elem_of_cons. }
        rewrite Hsplit. tauto.
    + split; [intros Hl; pose proof (cub_nodes_of_bound m r acc); lia|].
      intros [Hf _]. rewrite Forall_cons in Hf. destruct Hf as [[x Hx] _]. congruence.
Qed.

(** A dead element is refused with [MB_INVALID_SIZE] exactly when one of
    its nodes has no matched reference vertex, or two of its nodes match
    the same reference vertex ([cub_nodes] is a set, so it then holds
    fewer than [nodes_per_element] vertices). *)
Theorem dead_element_invalid_size s m ptr mb_type nodes_per_element elem_conn :
  length elem_conn = nodes_per_element ->
  let ids := map (fun c => ptr !!! Z.to_nat (c - 1)) elem_conn in
  dead_element s m ptr mb_type nodes_per_element elem_conn = Err MB_INVALID_SIZE <->
  ~ (Forall (fun id => is_Some (m !! id)) ids /\ NoDup (map (fun id => m !!! id) ids)).
Proof.
  intros Hlen ids. unfold dead_element. fold ids.
  pose proof (cub_nodes_of_full m ids []) as Hf. simpl in Hf.
  assert (Hids : length ids = nodes_per_element) by (unfold ids; rewrite length_map; exact Hlen).
  destruct (Nat.eqb_spec nodes_per_element (length (cub_nodes_of m ids []))) as [Heq|Hne];
    simpl.
  - split.
    + destruct (get_adjacencies_intersect (u_db s) (cub_nodes_of m ids [])
                  (Dimension mb_type)) as [|h [|h' l]]; discriminate.
    + intros Hn. exfalso. apply Hn.
      assert (H : length (cub_nodes_of m ids []) = length ids) by lia.
      apply Hf in H. tauto.
  - split; [intros _|reflexivity].
    intros [H1 H2]. apply Hne. rewrite (proj2 Hf); [lia|].
    split; [exact H1|]. split; [exact H2|].
    apply Forall_forall. intros x _. apply not_elem_of_nil.
Qed.

Lemma dead_element_invalid_size_witness :
  length [1; 1] = 2%nat /\
  dead_element {| u_db := {| ents := []; next_handle := 1 |}; cub_file_set := [] |}
    {[7 := 70]} [7] MBEDGE 2 [1; 1] = Err MB_INVALID_SIZE.
Proof.
  split; [reflexivity|].
  apply (proj2 (dead_element_invalid_size
                  {| u_db := {| ents := []; next_handle := 1 |}; cub_file_set := [] |}
                  {[7 := 70]} [7] MBEDGE 2 [1; 1] eq_refl)).
  intros [_ H]. vm_compute in H. apply NoDup_cons in H as [H _].
  apply H. apply elem_of_cons. left. reflexivity.
Defined.

Lemma length_filter_handle_absent (l : list (Z * element)) h :
  h ∉ map fst l -> length (filter (fun p => p.1 <> h) l) = length l.
Proof.
  induction l as [|[k e] l IH]; intros Hh; simpl; [reflexivity|].
  rewrite filter_cons. simpl in Hh. apply not_elem_of_cons in Hh as [Hk Hl].
  rewrite decide_True by (simpl; intros Heq; apply Hk; symmetry; exact Heq).
  simpl. rewrite IH by exact Hl. reflexivity.
Qed.

Lemma length_filter_handle (l : list (Z * element)) h :
  NoDup (map fst l) -> h ∈ map fst l ->
  S (length (filter (fun p => p.1 <> h) l)) = length l.
Proof.
  induction l as [|[k e] l IH]; intros Hnd Hh; simpl in *; [inversion Hh|].
  apply NoDup_cons in Hnd as [Hk Hnd]. rewrite filter_cons. simpl.
  destruct (decide (k = h)) as [->|Hne].
  - rewrite decide_False by (simpl; tauto). rewrite length_filter_handle_absent by exact Hk.
    reflexivity.
  - rewrite decide_True by exact Hne. simpl. rewrite IH; [reflexivity|exact Hnd|].
    apply elem_of_cons in Hh as [Hh|Hh]; [congruence|exact Hh].
Qed.

Lemma map_fst_filter_incl (P : Z * element -> Prop) `{forall x, Decision (P x)} l x :
  x ∈ map fst (filter P l) -> x ∈ map fst l.
Proof.
  intros Hx. apply list_elem_of_In, in_map_iff in Hx as (p & <- & Hp).
  apply list_elem_of_In, list_elem_of_filter in Hp as [_ Hp].
  apply list_elem_of_In, in_map, list_elem_of_In. exact Hp.
Qed.

Lemma NoDup_map_fst_filter (P : Z * element -> Prop) `{forall x, Decision (P x)} l :
  NoDup (map fst l) -> NoDup (map fst (filter P l)).
Proof.
  induction l as [|[k e] l IH]; intros Hnd; simpl in *; [constructor|].
  apply NoDup_cons in Hnd as [Hk Hnd]. rewrite filter_cons.
  destruct (decide (P (k, e))); simpl; [|exact (IH Hnd)].
  apply NoDup_cons. split; [|exact (IH Hnd)].
  intros Hin. apply Hk. eapply map_fst_filter_incl. exact Hin.
Qed.

Lemma dead_element_deletes_one s m ptr mb_type npe elem_conn s' :
  NoDup (map fst (ents (u_db s))) ->
  dead_element s m ptr mb_type npe elem_conn = Ok s' ->
  NoDup (map fst (ents (u_db s'))) /\
  S (length (ents (u_db s'))) = length (ents (u_db s)).
Proof.
  intros Hnd. unfold dead_element.
  destruct (negb (Nat.eqb npe _)); [discriminate|].
  destruct (get_adjacencies_intersect (u_db s) _ (Dimension mb_type)) as [|h [|h' l]] eqn:E;
    try discriminate.
  intros H. injection H as <-. simpl.
  assert (Hh : h ∈ map fst (ents (u_db s))).
  { unfold get_adjacencies_intersect in E.
    eapply map_fst_filter_incl. rewrite E. apply elem_of_cons. left. reflexivity. }
  split; [apply NoDup_map_fst_filter; exact Hnd|].
  apply length_filter_handle; assumption.
Qed.

Lemma dead_elements_loop_count s m ptr mb_type npe exo_conn statuses j c s' c' :
  NoDup (map fst (ents (u_db s))) ->
  dead_elements_loop s m ptr mb_type npe exo_conn statuses j c = Ok (s', c') ->
  NoDup (map fst (ents (u_db s'))) /\
  c' = (c + length (filter (fun d => PrimFloat.eqb 1.0%float d = false) statuses))%nat /\
  (length (ents (u_db s')) + c' = length (ents (u_db s)) + c)%nat.
Proof.
  revert s j c. induction statuses as [|d rest IH]; intros s j c Hnd H; simpl in H.
  - injection H as <- <-. simpl. split; [exact Hnd|]. split; lia.
  - rewrite filter_cons.
    destruct (PrimFloat.eqb 1.0%float d) eqn:Ed; simpl in H.
    + rewrite decide_False by congruence. exact (IH _ _ _ Hnd H).
    + rewrite decide_True by reflexivity. simpl.
      destruct (dead_element s m ptr mb_type npe _) as [s1|e] eqn:E1; [|discriminate].
      simpl in H. destruct (dead_element_deletes_one _ _ _ _ _ _ _ Hnd E1) as [Hnd1 Hl1].
      destruct (IH _ _ _ Hnd1 H) as (H1 & H2 & H3).
      split; [exact H1|]. split; lia.
Qed.

(** A successful pass of [update] over the blocks deletes exactly one
    database element per dead element ([death_status != 1]) and counts
    each one: the total of dead elements grows by their number, and the
    database shrinks by as many elements (its handles being distinct). *)
Theorem update_dead_elements_count s m ptr blocks total s' total' :
  NoDup (map fst (ents (u_db s))) ->
  update_dead_elements s m ptr blocks total = Ok (s', total') ->
  total' = (total + dead_count blocks)%nat /\
  (length (ents (u_db s')) + dead_count blocks = length (ents (u_db s)))%nat.
Proof.
  unfold dead_count.
  revert s total. induction blocks as [|[f|] rest IH]; intros s total Hnd H; simpl in H.
  - injection H as <- <-. simpl. split; lia.
  - destruct (dead_elements_loop s m ptr (ExoIIElementMBEntity (blk_elem_type f))
                (VerticesPerElement (blk_elem_type f)) (exo_conn f) (death_status f) 0 0)
      as [[s1 c1]|e] eqn:E1; [|discriminate].
    simpl in H.
    destruct (dead_elements_loop_count _ _ _ _ _ _ _ _ _ _ _ Hnd E1) as (Hnd1 & Hc & Hl).
    destruct (IH _ _ Hnd1 H) as [H1 H2]. simpl. split; lia.
  - discriminate.
Qed.

(** A block of two edges, the first one dead, over the vertices 10, 20
    and 30 with matched ids 1, 2 and 3. *)
Definition two_edges_state : UpdState :=
  {| u_db := {| ents := [(10, {| etype := MBVERTEX; econn := [] |});
                         (20, {| etype := MBVERTEX; econn := [] |});
                         (30, {| etype := MBVERTEX; econn := [] |});
                         (40, {| etype := MBEDGE; econn := [10; 20] |});
                         (41, {| etype := MBEDGE; econn := [20; 30] |})];
                next_handle := 42 |};
     cub_file_set := [40; 41] |}.

Definition two_edges_block : DeadBlockFile :=
  {| blk_elem_type := EXOII_elem FBar 2; exo_conn := [1; 2; 2; 3];
     death_status := [0.0%float; 1.0%float] |}.

Lemma update_dead_elements_count_witness :
  exists s', update_dead_elements two_edges_state {[1 := 10; 2 := 20; 3 := 30]} [1; 2; 3]
               [Some two_edges_block] 0 = Ok (s', 1%nat) /\
  (length (ents (u_db s')) + 1 = 5)%nat.
Proof.
  eexists. split; [reflexivity|].
  refine (proj2 (update_dead_elements_count two_edges_state {[1 := 10; 2 := 20; 3 := 30]}
                   [1; 2; 3] [Some two_edges_block] 0 _ 1 _ eq_refl)).
  vm_compute. repeat constructor; vm_compute; set_solver.
Defined.

(** *** Tag values *)

(** When [read_tag_values] succeeds the tag name is one of the three set
    tags; if the file has no set of that kind the caller's vector is
    handed back as it was, otherwise it holds exactly the first [count]
    values of the [prop] variable, whatever it held before. *)
Theorem read_tag_values_success file tag_name id_array subset_list r :
  read_tag_values file tag_name id_array subset_list = (TV MB_SUCCESS, r) ->
  exists f count prop,
    file = Some f /\ subset_list = false /\
    tag_selection f tag_name = Some (count, prop) /\
    ((count = 0%nat /\ r = id_array) \/
     (count <> 0%nat /\ exists v, prop = Some v /\ (count <= length v)%nat /\
                                 r = take count v)).
Proof.
  unfold read_tag_values. destruct subset_list; [discriminate|].
  destruct file as [f|]; [|discriminate].
  intros H. exists f.
  assert (Hsel : (match tag_selection f tag_name with
            | None => (MB_TAG_NOT_FOUND, id_array)
            | Some (count, prop) =>
                if Nat.eqb count 0 then (TV MB_SUCCESS, id_array)
                else
                  match prop with
                  | None => (TV MB_FAILURE, id_array)
                  | Some v =>
                      if Nat.leb count (length v) then (TV MB_SUCCESS, take count v)
                      else (TV MB_FAILURE, resize count id_array)
                  end
            end) = (TV MB_SUCCESS, r) ->
    exists count prop,
    Some f = Some f /\ false = false /\
    tag_selection f tag_name = Some (count, prop) /\
    ((count = 0%nat /\ r = id_array) \/
     (count <> 0%nat /\ exists v, prop = Some v /\ (count <= length v)%nat /\
                                 r = take count v))).
  { intros H'.
    destruct (tag_selection f tag_name) as [[count prop]|]; [|discriminate].
    exists count, prop. do 3 (split; [reflexivity|]).
    destruct (Nat.eqb_spec count 0) as [->|Hc].
    - injection H' as <-. left. split; reflexivity.
    - destruct prop as [v|]; [|discriminate].
      destruct (Nat.leb_spec count (length v)); [|discriminate].
      injection H' as <-. right. split; [exact Hc|]. exists v. repeat split; assumption. }
  destruct (header_read f); try discriminate; exact (Hsel H).
Qed.

Lemma read_tag_values_success_witness :
  exists f count prop,
    Some {| header_read := MB_SUCCESS; numberElementBlocks_loading := 0;
            numberNodeSets_loading := 2; numberSideSets_loading := 0;
            eb_prop1 := None; ns_prop1 := Some [4; 9]; ss_prop1 := None |} = Some f /\
    false = false /\ tag_selection f "DIRICHLET_SET" = Some (count, prop) /\
    ((count = 0%nat /\ [4; 9] = [7; 7; 7]) \/
     (count <> 0%nat /\ exists v, prop = Some v /\ (count <= length v)%nat /\
                                 [4; 9] = take count v)).
Proof.
  apply (read_tag_values_success
           (Some {| header_read := MB_SUCCESS; numberElementBlocks_loading := 0;
                    numberNodeSets_loading := 2; numberSideSets_loading := 0;
                    eb_prop1 := None; ns_prop1 := Some [4; 9]; ss_prop1 := None |})
           "DIRICHLET_SET" [7; 7; 7] false).
  reflexivity.
Defined.

(** *** Node coordinates *)

Lemma coord_row_ok rows r n x :
  coord_row rows r n = Ok x ->
  exists row, rows !! r = Some row /\ (n <= length row)%nat /\ x = take n row.
Proof.
  unfold coord_row. destruct (rows !! r) as [row|]; [|discriminate].
  destruct (Nat.leb_spec n (length row)); [|discriminate].
  intros Heq. injection Heq as <-. eauto.
Qed.

Lemma coord_row_err rows r n e :
  coord_row rows r n = Err e -> e = MB_FAILURE.
Proof.
  unfold coord_row. destruct (rows !! r); [|congruence].
  destruct (Nat.leb n (length l)); congruence.
Qed.

(** [read_nodes] reads [numberNodes_loading] values of the rows 0 and 1
    of [coord], and of row 2 unless the file is 2-D, where [z] is all
    zeros whatever a third row holds; the vertex offset is the first
    vertex id minus 1.  A file with fewer than three coordinate rows
    that is not 2-D (e.g. a 1-D file) is refused. *)
Theorem read_nodes_coords rows numberDimensions_loading numberNodes_loading node_handle_id :
  (forall vertexOffset x y z,
     read_nodes (Some rows) numberDimensions_loading numberNodes_loading node_handle_id
       = Ok (vertexOffset, x, y, z) ->
     vertexOffset = node_handle_id - 1 /\
     x = take numberNodes_loading (rows !!! 0%nat) /\
     y = take numberNodes_loading (rows !!! 1%nat) /\
     z = (if Z.eqb numberDimensions_loading 2 then replicate numberNodes_loading 0%float
          else take numberNodes_loading (rows !!! 2%nat)) /\
     length x = numberNodes_loading /\ length y = numberNodes_loading /\
     length z = numberNodes_loading) /\
  (numberDimensions_loading <> 2 -> (length rows <= 2)%nat ->
   read_nodes (Some rows) numberDimensions_loading numberNodes_loading node_handle_id
   = Err MB_FAILURE).
Proof.
  split.
  - intros vertexOffset x y z H. unfold read_nodes in H.
    destruct (coord_row rows 0 numberNodes_loading) as [x'|] eqn:Ex; [|discriminate].
    destruct (coord_row rows 1 numberNodes_loading) as [y'|] eqn:Ey; [|discriminate].
    simpl in H.
    apply coord_row_ok in Ex as (rx & Hrx & Hlx & ->).
    apply coord_row_ok in Ey as (ry & Hry & Hly & ->).
    rewrite (list_lookup_total_correct _ _ _ Hrx), (list_lookup_total_correct _ _ _ Hry).
    destruct (Z.eqb numberDimensions_loading 2).
    + injection H as <- <- <- <-. rewrite !length_take, length_replicate.
      repeat split; lia.
    + destruct (coord_row rows 2 numberNodes_loading) as [z'|] eqn:Ez; [|discriminate].
      simpl in H. apply coord_row_ok in Ez as (rz & Hrz & Hlz & ->).
      rewrite (list_lookup_total_correct _ _ _ Hrz).
      injection H as <- <- <- <-. rewrite !length_take. repeat split; lia.
  - intros Hd Hlen. unfold read_nodes.
    rewrite (proj2 (Z.eqb_neq _ _) Hd).
    assert (H2 : coord_row rows 2 numberNodes_loading = Err MB_FAILURE).
    { unfold coord_row. rewrite (lookup_ge_None_2 rows 2) by lia. reflexivity. }
    rewrite H2.
    destruct (coord_row rows 0 numberNodes_loading) eqn:E0;
      [|apply coord_row_err in E0; subst; reflexivity].
    destruct (coord_row rows 1 numberNodes_loading) eqn:E1;
      [reflexivity|apply coord_row_err in E1; subst; reflexivity].
Qed.

Lemma read_nodes_coords_witness :
  read_nodes (Some [[1.0%float]]) 1 1 5 = Err MB_FAILURE.
Proof. exact (proj2 (read_nodes_coords [[1.0%float]] 1 1 5) ltac:(discriminate) ltac:(simpl; lia)). Defined.
